(** * claude-code-tool-manager: the UI state layer, embedded and verified

    A shallow embedding of the presentation layer's stores and helpers:

    - [JsRegExp]: the fragment of ECMAScript regular expressions and of
      [String.prototype.replace] that the sources use;
    - [Markdown]: [renderMarkdown] of [WhatsNewModal.svelte];
    - [McpLibrary]: the [McpLibraryState] store (stores/mcpLibrary.svelte,
      the second source of unnamed/part_000);
    - [Projects]: the two loaders of [ProjectsState] (the second source of
      stores/debug.svelte.ts);
    - [WhatsNew]: the [WhatsNewState] store (whatsNew.svelte.ts);
    - [DebugLogger]: the console interceptor (debugLogger.ts).

    JavaScript strings are modelled as [string] (sequences of code units
    below 256).  An [async] method is a [Task]: a function from the state it
    runs in to an outcome (resolved or rejected) and the state it leaves.
    [console.log] and [console.error] calls inside the stores never write
    store state and never throw.  With the interceptor of [DebugLogger]
    installed they also send a log command; [DebugStore], whose model
    keeps the list of commands sent, models them, the other stores leave
    them out. *)

From Stdlib Require Import String Ascii List ZArith Lia Bool Sorted Permutation.
From stdpp Require Import base option list strings gmap.
Import ListNotations.

(* ===================================================================== *)
(** * Asynchronous methods: outcome and state *)
(* ===================================================================== *)

(** Values that JavaScript code throws or rejects with.  A rejection of
    [invoke] carries what the backend sent as JSON: a string, or a value
    whose conversion to a string either gives a text or throws (for the
    object [{toString: 1}], a TypeError). *)
Inductive Thrown : Type :=
| ErrorObj (ename message : string)     (* an instance of Error *)
| StringVal (s : string)                (* a plain string *)
| OtherVal (rendering : string)         (* any other value, with String(v) *)
| Unprintable (thrown : Thrown).        (* a value for which String(v) throws *)

Inductive Outcome (A : Type) : Type :=
| Resolved (a : A)
| Rejected (e : Thrown).
Arguments Resolved {A} a.
Arguments Rejected {A} e.

(** [String(e)]: for an Error, Error.prototype.toString; the call throws
    for a value that cannot be converted. *)
Definition String_ (e : Thrown) : Outcome string :=
  match e with
  | ErrorObj n m =>
      Resolved (if String.eqb n "" then m
                else if String.eqb m "" then n
                else n +:+ ": " +:+ m)
  | StringVal s => Resolved s
  | OtherVal r => Resolved r
  | Unprintable t => Rejected t
  end.

Definition Task (St A : Type) : Type := St -> Outcome A * St.

Module TaskM.
Section Ops.
Context {St : Type}.

Definition ret {A} (a : A) : Task St A := fun s => (Resolved a, s).

Definition bind {A B} (m : Task St A) (f : A -> Task St B) : Task St B :=
  fun s =>
    match m s with
    | (Resolved a, s') => f a s'
    | (Rejected e, s') => (Rejected e, s')
    end.

Definition throw {A} (e : Thrown) : Task St A := fun s => (Rejected e, s).

(** [await p] for a promise that settles with outcome [o]. *)
Definition await {A} (o : Outcome A) : Task St A := fun s => (o, s).

Definition gets {A} (f : St -> A) : Task St A := fun s => (Resolved (f s), s).

Definition modify (f : St -> St) : Task St unit :=
  fun s => (Resolved tt, f s).

(** [try { body } catch (e) { handler e }] *)
Definition try_catch {A} (body : Task St A) (handler : Thrown -> Task St A)
  : Task St A :=
  fun s =>
    match body s with
    | (Resolved a, s') => (Resolved a, s')
    | (Rejected e, s') => handler e s'
    end.

(** [try { body } finally { fin }]: [fin] runs on every exit of [body];
    the outcome is that of [body] unless [fin] itself throws. *)
Definition try_finally {A} (body : Task St A) (fin : Task St unit)
  : Task St A :=
  fun s =>
    match body s with
    | (r, s') =>
        match fin s' with
        | (Resolved _, s'') => (r, s'')
        | (Rejected e, s'') => (Rejected e, s'')
        end
    end.
End Ops.
End TaskM.

(** [Task St] is a monad; stdpp's [x ← m; k] and [m;; k] read as a
    sequence of awaited statements. *)
#[global] Instance task_ret {St} : MRet (Task St) := @TaskM.ret St.
#[global] Instance task_bind {St} : MBind (Task St) :=
  fun A B f m => TaskM.bind m f.

(* ===================================================================== *)
(** * ECMAScript regular expressions, as far as the sources use them *)
(* ===================================================================== *)

Module JsRegExp.

Inductive regex : Type :=
| Eps
| Chr (c : ascii)                        (* a literal character *)
| Class (p : ascii -> bool)              (* . \w [^x] [\s\S] *)
| Bol                                    (* ^ *)
| Eol                                    (* $ *)
| Seq (r1 r2 : regex)
| Alt (r1 r2 : regex)
| Star (greedy : bool) (r : regex)       (* r* and r*? *)
| Group (i : nat) (r : regex).           (* the i-th capturing group *)

(** [r+], [r+?] and [r?]. *)
Definition plus (greedy : bool) (r : regex) : regex := Seq r (Star greedy r).
Definition opt (r : regex) : regex := Alt r Eps.

Fixpoint lit_list (s : list ascii) : regex :=
  match s with
  | [] => Eps
  | [c] => Chr c
  | c :: tl => Seq (Chr c) (lit_list tl)
  end.
Definition lit (s : string) : regex := lit_list (list_ascii_of_string s).

Definition LF : ascii := ascii_of_nat 10.
Definition CR : ascii := ascii_of_nat 13.

(** LineTerminator, restricted to the code units a [string] holds. *)
Definition is_line_terminator (c : ascii) : bool :=
  Ascii.eqb c LF || Ascii.eqb c CR.

Definition is_word_char (c : ascii) : bool :=
  let n := nat_of_ascii c in
  ((48 <=? n)%nat && (n <=? 57)%nat) || ((65 <=? n)%nat && (n <=? 90)%nat)
  || ((97 <=? n)%nat && (n <=? 122)%nat) || (n =? 95)%nat.

Definition dot : regex := Class (fun c => negb (is_line_terminator c)).
Definition any : regex := Class (fun _ => true).
Definition word : regex := Class is_word_char.
Definition not_chr (x : ascii) : regex :=
  Class (fun c => negb (Ascii.eqb c x)).

(** The matcher's state: the character before the current position (for
    [^]), the input still ahead, and the captures made so far. *)
Record mstate : Type := MState {
  before : option ascii;
  rest : list ascii;
  caps : list (nat * list ascii)
}.

Definition consumed (st st' : mstate) : list ascii :=
  firstn (length (rest st) - length (rest st')) (rest st).

Definition at_bol (multiline : bool) (st : mstate) : bool :=
  match before st with
  | None => true
  | Some c => multiline && is_line_terminator c
  end.

Definition at_eol (multiline : bool) (st : mstate) : bool :=
  match rest st with
  | [] => true
  | c :: _ => multiline && is_line_terminator c
  end.

Definition step_char (p : ascii -> bool) (st : mstate)
    (k : mstate -> option mstate) : option mstate :=
  match rest st with
  | c :: tl => if p c then k (MState (Some c) tl (caps st)) else None
  | [] => None
  end.

Fixpoint groups_of (r : regex) : list nat :=
  match r with
  | Seq r1 r2 | Alt r1 r2 => groups_of r1 ++ groups_of r2
  | Star _ r1 => groups_of r1
  | Group i r1 => i :: groups_of r1
  | _ => []
  end.

Definition set_cap (i : nat) (v : list ascii) (cs : list (nat * list ascii))
  : list (nat * list ascii) :=
  (i, v) :: List.filter (fun p => negb (Nat.eqb (fst p) i)) cs.

(** Captures of the groups inside a quantified atom are reset when an
    iteration starts. *)
Definition clear_caps (gs : list nat) (st : mstate) : mstate :=
  MState (before st) (rest st)
    (List.filter (fun p => negb (existsb (Nat.eqb (fst p)) gs)) (caps st)).

Definition orelse (a b : option mstate) : option mstate :=
  match a with Some x => Some x | None => b end.

(** The iterations of [r*] and [r*?] at a position, [body] matching one
    [r]: greedy tries one more iteration before the continuation, lazy the
    continuation first.  An iteration that consumes nothing is rejected,
    as in RepeatMatcher, so [length (rest st)] iterations are enough. *)
Fixpoint star_loop (greedy : bool) (gs : list nat)
    (body : mstate -> (mstate -> option mstate) -> option mstate)
    (k : mstate -> option mstate) (n : nat) (st : mstate) {struct n}
  : option mstate :=
  match n with
  | O => k st
  | S n' =>
      let again :=
        body (clear_caps gs st)
          (fun st' =>
             if (length (rest st') <? length (rest st))%nat
             then star_loop greedy gs body k n' st' else None) in
      if greedy then orelse again (k st) else orelse (k st) again
  end.

(** Backtracking matcher in continuation-passing style: [exec r st k] tries
    the ways [r] can match at [st] in priority order and returns the first
    one that the continuation [k] accepts. *)
Fixpoint exec (multiline : bool) (r : regex) (st : mstate)
    (k : mstate -> option mstate) {struct r} : option mstate :=
  match r with
  | Eps => k st
  | Chr c => step_char (Ascii.eqb c) st k
  | Class p => step_char p st k
  | Bol => if at_bol multiline st then k st else None
  | Eol => if at_eol multiline st then k st else None
  | Seq r1 r2 => exec multiline r1 st (fun st' => exec multiline r2 st' k)
  | Alt r1 r2 => orelse (exec multiline r1 st k) (exec multiline r2 st k)
  | Group i r1 =>
      exec multiline r1 st
        (fun st' => k (MState (before st') (rest st')
                         (set_cap i (consumed st st') (caps st'))))
  | Star greedy r1 =>
      star_loop greedy (groups_of r1) (exec multiline r1) k
        (length (rest st)) st
  end.

(** A match attempt at one position: [prev] is the character before it. *)
Definition match_at (multiline : bool) (r : regex)
    (prev : option ascii) (s : list ascii) : option mstate :=
  exec multiline r (MState prev s []) Some.

Definition get_cap (i : nat) (cs : list (nat * list ascii)) : list ascii :=
  match List.find (fun p => Nat.eqb (fst p) i) cs with
  | Some p => snd p
  | None => []
  end.

(** What a match is replaced by, from the matched text and the captures. *)
Definition replacer : Type :=
  list ascii -> list (nat * list ascii) -> list ascii.

(** [String.prototype.replace]: scan left to right, replace the leftmost
    match, and with the [g] flag go on after it (one character further
    after an empty match). *)
Fixpoint replace_from (fuel : nat) (multiline global : bool) (r : regex)
    (f : replacer) (prev : option ascii) (s : list ascii) : list ascii :=
  match fuel with
  | O => s
  | S fuel' =>
      match match_at multiline r prev s with
      | Some st' =>
          let matched := firstn (length s - length (rest st')) s in
          f matched (caps st') ++
          (if global then
             match matched, s with
             | [], c :: tl =>
                 c :: replace_from fuel' multiline global r f (Some c) tl
             | [], [] => []
             | _ :: _, _ =>
                 replace_from fuel' multiline global r f
                   (before st') (rest st')
             end
           else rest st')
      | None =>
          match s with
          | [] => []
          | c :: tl =>
              c :: replace_from fuel' multiline global r f (Some c) tl
          end
      end
  end.

Definition replace_list (multiline global : bool) (r : regex) (f : replacer)
    (l : list ascii) : list ascii :=
  replace_from (S (length l)) multiline global r f None l.

(** Replacement patterns: text, [$i] and [$&]. *)
Inductive piece : Type :=
| Txt (s : string)
| Ref (i : nat)
| Whole.

Definition subst (tpl : list piece) : replacer :=
  fun matched cs =>
    flat_map (fun p =>
      match p with
      | Txt s => list_ascii_of_string s
      | Ref i => get_cap i cs
      | Whole => matched
      end) tpl.

Definition replace_with (multiline global : bool) (r : regex) (f : replacer)
    (s : string) : string :=
  string_of_list_ascii
    (replace_list multiline global r f (list_ascii_of_string s)).

Definition replace (multiline global : bool) (r : regex) (tpl : list piece)
    (s : string) : string :=
  replace_with multiline global r (subst tpl) s.

(** [Array.prototype.slice] / [String.prototype.slice] with relative
    indices. *)
Definition slice {A} (b e : Z) (l : list A) : list A :=
  let len := Z.of_nat (length l) in
  let from := if (b <? 0)%Z then Z.max (len + b) 0 else Z.min b len in
  let to := if (e <? 0)%Z then Z.max (len + e) 0 else Z.min e len in
  firstn (Z.to_nat (to - from)) (skipn (Z.to_nat from) l).

(** [String.prototype.includes]. *)
Fixpoint starts_with (s sub : list ascii) {struct sub} : bool :=
  match sub, s with
  | [], _ => true
  | _ :: _, [] => false
  | c :: sub', d :: s' => Ascii.eqb c d && starts_with s' sub'
  end.

Fixpoint includes_list (s sub : list ascii) : bool :=
  starts_with s sub ||
  match s with
  | [] => false
  | _ :: s' => includes_list s' sub
  end.

Definition includes (s sub : string) : bool :=
  includes_list (list_ascii_of_string s) (list_ascii_of_string sub).

End JsRegExp.

(* ===================================================================== *)
(** * WhatsNewModal.svelte: renderMarkdown *)
(* ===================================================================== *)

Module Markdown.
Import JsRegExp.

(** A double quote, and a quoted attribute value. *)
Definition dq : string := String (ascii_of_nat 34) EmptyString.
Definition q (s : string) : string := dq +:+ s +:+ dq.

Definition re_header (hashes : string) : regex :=
  Seq Bol (Seq (lit (hashes +:+ " ")) (Seq (Group 1 (plus true dot)) Eol)).

(** [/^### (.+)$/gm], [/^## (.+)$/gm], [/^# (.+)$/gm] *)
Definition header4 : string -> string :=
  replace true true (re_header "###")
    [Txt ("<h4 class=" +:+
          q "text-sm font-semibold text-gray-900 dark:text-white mt-4 mb-2"
          +:+ ">"); Ref 1; Txt "</h4>"].
Definition header3 : string -> string :=
  replace true true (re_header "##")
    [Txt ("<h3 class=" +:+
          q "text-base font-semibold text-gray-900 dark:text-white mt-4 mb-2"
          +:+ ">"); Ref 1; Txt "</h3>"].
Definition header2 : string -> string :=
  replace true true (re_header "#")
    [Txt ("<h2 class=" +:+
          q "text-lg font-bold text-gray-900 dark:text-white mt-4 mb-2"
          +:+ ">"); Ref 1; Txt "</h2>"].

(** [/\*\*(.+?)\*\*/g] *)
Definition re_bold : regex :=
  Seq (lit "**") (Seq (Group 1 (plus false dot)) (lit "**")).
Definition bold : string -> string :=
  replace false true re_bold
    [Txt ("<strong class=" +:+ q "font-semibold" +:+ ">"); Ref 1;
     Txt "</strong>"].

(** [/\*(.+?)\*/g] *)
Definition re_italic : regex :=
  Seq (Chr "*") (Seq (Group 1 (plus false dot)) (Chr "*")).
Definition italic : string -> string :=
  replace false true re_italic [Txt "<em>"; Ref 1; Txt "</em>"].

(** [/```[\s\S]*?```/g] with the replacement function
    [match.slice(3, -3).replace(/^\w+\n/, '')] wrapped in [<pre><code>]. *)
Definition re_fence : regex :=
  Seq (lit "```") (Seq (Star false any) (lit "```")).
Definition re_lang : regex := Seq Bol (Seq (plus true word) (Chr LF)).
Definition pre_open : string :=
  "<pre class=" +:+
  q "bg-gray-100 dark:bg-gray-800 rounded p-2 text-xs overflow-x-auto my-2"
  +:+ "><code>".
Definition pre_close : string := "</code></pre>".
Definition fence_code (matched : list ascii) : list ascii :=
  replace_list false false re_lang (subst []) (slice 3 (-3) matched).
Definition fence_replacer : replacer :=
  fun matched _ =>
    list_ascii_of_string pre_open ++ fence_code matched
    ++ list_ascii_of_string pre_close.
Definition codeBlocks : string -> string :=
  replace_with false true re_fence fence_replacer.

(** [/`([^`]+)`/g] *)
Definition re_inline : regex :=
  Seq (Chr "`") (Seq (Group 1 (plus true (not_chr "`"))) (Chr "`")).
Definition inlineCode : string -> string :=
  replace false true re_inline
    [Txt ("<code class=" +:+
          q "bg-gray-100 dark:bg-gray-800 px-1 py-0.5 rounded text-sm"
          +:+ ">"); Ref 1; Txt "</code>"].

(** [/\[([^\]]+)\]\(([^)]+)\)/g] *)
Definition re_link : regex :=
  Seq (Chr "[") (Seq (Group 1 (plus true (not_chr "]")))
    (Seq (lit "](") (Seq (Group 2 (plus true (not_chr ")"))) (Chr ")")))).
Definition links : string -> string :=
  replace false true re_link
    [Txt ("<a href=" +:+ dq); Ref 2;
     Txt (dq +:+ " class=" +:+ q "text-primary-600 hover:underline"
          +:+ " target=" +:+ q "_blank" +:+ " rel=" +:+ q "noopener"
          +:+ ">"); Ref 1; Txt "</a>"].

(** [/^- (.+)$/gm] *)
Definition re_bullet : regex :=
  Seq Bol (Seq (lit "- ") (Seq (Group 1 (plus true dot)) Eol)).
Definition bullets : string -> string :=
  replace true true re_bullet
    [Txt ("<li class=" +:+ q "ml-4 list-disc" +:+ ">"); Ref 1; Txt "</li>"].

(** [/(<li[^>]*>.*<\/li>\n?)+/g] *)
Definition re_items : regex :=
  plus true
    (Group 1 (Seq (lit "<li") (Seq (Star true (not_chr ">"))
       (Seq (Chr ">") (Seq (Star true dot)
          (Seq (lit "</li>") (opt (Chr LF)))))))).
Definition wrapLists : string -> string :=
  replace false true re_items
    [Txt ("<ul class=" +:+ q "my-2 space-y-1" +:+ ">"); Whole; Txt "</ul>"].

(** [/\n\n/g] and [/\n/g] *)
Definition paragraphs : string -> string :=
  replace false true (Seq (Chr LF) (Chr LF))
    [Txt ("</p><p class=" +:+ q "my-2" +:+ ">")].
Definition lineBreaks : string -> string :=
  replace false true (Chr LF) [Txt "<br>"].

(** The substitutions after the emphasis rules, in source order. *)
Definition afterEmphasis (text : string) : string :=
  lineBreaks (paragraphs (wrapLists (bullets (links (inlineCode
    (codeBlocks text)))))).

Definition headers (text : string) : string :=
  header2 (header3 (header4 text)).

Definition renderMarkdown (text : string) : string :=
  afterEmphasis (italic (bold (headers text))).

End Markdown.

(* ===================================================================== *)
(** * Array.prototype.sort *)
(* ===================================================================== *)

Module JsArray.
Section Sort.
Context {A : Type} (cmp : A -> A -> Z).

(** [sort] is stable: with a comparator [cmp], [a] stays before a later
    [b] unless [cmp a b > 0].  Insertion from the right gives that
    order.  (For a comparator that is not consistent the language leaves
    the order to the implementation; the model fixes this one.) *)
Fixpoint insert (x : A) (l : list A) : list A :=
  match l with
  | [] => [x]
  | y :: l' => if (cmp x y <=? 0)%Z then x :: y :: l' else y :: insert x l'
  end.

Definition sort (l : list A) : list A := foldr insert [] l.
End Sort.
End JsArray.

(* ===================================================================== *)
(** * stores/mcpLibrary.svelte: McpLibraryState *)
(* ===================================================================== *)

Module McpLibrary.
Import JsRegExp.

(** The transport kinds the store names. *)
Inductive McpType : Type := stdio | sse | http.

Definition typeName (t : McpType) : string :=
  match t with
  | stdio => "stdio"
  | sse => "sse"
  | http => "http"
  end.

(** [type === 'stdio'] and the like: an entity's [type] is the string the
    backend sent, which need not be one of the three. *)
Definition typeIs (type : string) (t : McpType) : bool :=
  String.eqb type (typeName t).

(** The value of [selectedType]: ['all'] or one transport kind. *)
Inductive TypeFilter : Type := all | only (t : McpType).

Section Store.
(** The [Mcp] fields the store never reads, and [CreateMcpRequest]. *)
Context {Rest CreateMcpRequest : Type}.
(** [String.prototype.toLowerCase] and [String.prototype.localeCompare]
    are the runtime's (Unicode case mapping, the locale's collation). *)
Context (toLowerCase : string -> string).
Context (localeCompare : string -> string -> Z).

(** Modelled from the spec: the [Mcp] record type of [$lib/types] is not
    among the sources; an entity has a numeric identifier unique within
    its collection plus domain fields (name, type, tags, enablement
    flags).  The fields are those the store and its tests read; [type]
    is the string the store compares with ['stdio'], ['sse'] and
    ['http']. *)
Record Mcp : Type := mkMcp {
  id : Z;
  name : string;
  description : option string;
  type : string;
  tags : option (list string);
  isFavorite : bool;
  isEnabledGlobal : bool;
  others : Rest
}.

Record McpLibraryState : Type := mkState {
  mcps : list Mcp;
  isLoading : bool;
  error : option string;
  searchQuery : string;
  selectedType : TypeFilter
}.

Definition set_mcps (v : list Mcp) (s : McpLibraryState) :=
  mkState v (isLoading s) (error s) (searchQuery s) (selectedType s).
Definition set_isLoading (v : bool) (s : McpLibraryState) :=
  mkState (mcps s) v (error s) (searchQuery s) (selectedType s).
Definition set_error (v : option string) (s : McpLibraryState) :=
  mkState (mcps s) (isLoading s) v (searchQuery s) (selectedType s).

(** The backend command boundary: what [invoke] settles with. *)
Record Backend : Type := mkBackend {
  get_all_mcps : Outcome (list Mcp);
  create_mcp : CreateMcpRequest -> Outcome Mcp;
  update_mcp : Z -> CreateMcpRequest -> Outcome Mcp;
  delete_mcp : Z -> Outcome unit;
  duplicate_mcp : Z -> Outcome Mcp;
  toggle_global_mcp : Z -> bool -> Outcome unit
}.

(** [m.name.toLowerCase().includes(query) ||
     m.description?.toLowerCase().includes(query) ||
     m.tags?.some((t) => t.toLowerCase().includes(query))] *)
Definition matchesQuery (query : string) (m : Mcp) : bool :=
  includes (toLowerCase (name m)) query
  || match description m with
     | Some d => includes (toLowerCase d) query
     | None => false
     end
  || match tags m with
     | Some ts => existsb (fun t => includes (toLowerCase t) query) ts
     | None => false
     end.

Definition matchesType (sel : TypeFilter) (m : Mcp) : bool :=
  match sel with
  | all => true
  | only t => typeIs (type m) t
  end.

(** The comparator handed to [sort]. *)
Definition compareMcps (a b : Mcp) : Z :=
  if negb (Bool.eqb (isFavorite a) (isFavorite b))
  then (if isFavorite a then -1 else 1)%Z
  else localeCompare (name a) (name b).

Definition filteredMcps (s : McpLibraryState) : list Mcp :=
  let result := mcps s in
  let result :=
    if negb (String.eqb (searchQuery s) "")
    then List.filter (matchesQuery (toLowerCase (searchQuery s))) result
    else result in
  let result :=
    match selectedType s with
    | all => result
    | only _ => List.filter (matchesType (selectedType s)) result
    end in
  JsArray.sort compareMcps result.

Context (backend : Backend).

Definition load : Task McpLibraryState unit :=
  TaskM.modify (set_isLoading true);;
  TaskM.modify (set_error None);;
  TaskM.try_finally
    (TaskM.try_catch
       (loaded ← TaskM.await (get_all_mcps backend);
        TaskM.modify (set_mcps loaded))
       (fun e =>
          text ← TaskM.await (String_ e);
          TaskM.modify (set_error (Some text))))
    (TaskM.modify (set_isLoading false)).

Definition create (request : CreateMcpRequest) : Task McpLibraryState Mcp :=
  mcp ← TaskM.await (create_mcp backend request);
  TaskM.modify (fun s => set_mcps (mcps s ++ [mcp]) s);;
  mret mcp.

Definition update (i : Z) (request : CreateMcpRequest)
  : Task McpLibraryState Mcp :=
  mcp ← TaskM.await (update_mcp backend i request);
  TaskM.modify (fun s =>
    set_mcps (map (fun m => if (id m =? i)%Z then mcp else m) (mcps s)) s);;
  mret mcp.

Definition delete (i : Z) : Task McpLibraryState unit :=
  TaskM.await (delete_mcp backend i);;
  TaskM.modify (fun s =>
    set_mcps (List.filter (fun m => negb (id m =? i)%Z) (mcps s)) s).

Definition duplicate (i : Z) : Task McpLibraryState Mcp :=
  mcp ← TaskM.await (duplicate_mcp backend i);
  TaskM.modify (fun s => set_mcps (mcps s ++ [mcp]) s);;
  mret mcp.

(** [{ ...m, isEnabledGlobal: enabled }] *)
Definition withEnabledGlobal (enabled : bool) (m : Mcp) : Mcp :=
  mkMcp (id m) (name m) (description m) (type m) (tags m) (isFavorite m)
    enabled (others m).

Definition toggleGlobal (i : Z) (enabled : bool)
  : Task McpLibraryState unit :=
  TaskM.await (toggle_global_mcp backend i enabled);;
  TaskM.modify (fun s =>
    set_mcps
      (map (fun m => if (id m =? i)%Z then withEnabledGlobal enabled m
                     else m) (mcps s)) s).
End Store.

Arguments Mcp : clear implicits.
Arguments McpLibraryState : clear implicits.
Arguments Backend : clear implicits.
End McpLibrary.

(* ===================================================================== *)
(** * The loaders of ProjectsState *)
(* ===================================================================== *)

Module Projects.
Section Store.
(** [Project] and [GlobalMcp] of [$lib/types]: the loaders only store
    the lists they receive. *)
Context {Project GlobalMcp : Type}.

Record ProjectsState : Type := mkState {
  projects : list Project;
  globalMcps : list GlobalMcp;
  isLoading : bool;
  error : option string
}.

Definition set_projects (v : list Project) (s : ProjectsState) :=
  mkState v (globalMcps s) (isLoading s) (error s).
Definition set_globalMcps (v : list GlobalMcp) (s : ProjectsState) :=
  mkState (projects s) v (isLoading s) (error s).
Definition set_isLoading (v : bool) (s : ProjectsState) :=
  mkState (projects s) (globalMcps s) v (error s).
Definition set_error (v : option string) (s : ProjectsState) :=
  mkState (projects s) (globalMcps s) (isLoading s) v.

Record Backend : Type := mkBackend {
  get_all_projects : Outcome (list Project);
  get_global_mcps : Outcome (list GlobalMcp)
}.

Context (backend : Backend).

Definition loadProjects : Task ProjectsState unit :=
  TaskM.modify (set_isLoading true);;
  TaskM.modify (set_error None);;
  TaskM.try_finally
    (TaskM.try_catch
       (loaded ← TaskM.await (get_all_projects backend);
        TaskM.modify (set_projects loaded))
       (fun e =>
          text ← TaskM.await (String_ e);
          TaskM.modify (set_error (Some text))))
    (TaskM.modify (set_isLoading false)).

(** The catch block only prints the failure. *)
Definition loadGlobalMcps : Task ProjectsState unit :=
  TaskM.try_catch
    (loaded ← TaskM.await (get_global_mcps backend);
     TaskM.modify (set_globalMcps loaded))
    (fun e => mret tt).
End Store.

Arguments ProjectsState : clear implicits.
Arguments Backend : clear implicits.
End Projects.

(* ===================================================================== *)
(** * whatsNew.svelte.ts: WhatsNewState *)
(* ===================================================================== *)

Module WhatsNew.

Definition LAST_SEEN_VERSION_KEY : string :=
  "claude-tool-manager-last-seen-version".
Definition GITHUB_REPO : string := "tylergraydev/claude-code-tool-manager".

Record ReleaseInfo : Type := mkRelease {
  version : string;
  name : string;
  body : string;
  publishedAt : string;
  htmlUrl : string
}.

Record WhatsNewState : Type := mkState {
  isOpen : bool;
  isLoading : bool;
  release : option ReleaseInfo;
  error : option string
}.

(** The JSON document of the releases-by-tag endpoint. *)
Record ReleaseData : Type := mkData {
  tag_name : string;
  data_name : string;
  data_body : string;
  published_at : string;
  html_url : string
}.

(** A [fetch] response: its [ok] flag and what [json()] settles with. *)
Record Response : Type := mkResponse {
  ok : bool;
  json : Outcome ReleaseData
}.

(** What the store runs against: [getVersion()], [fetch(url)] and the
    clock behind [new Date().toISOString()]. *)
Record Env : Type := mkEnv {
  getVersion : Outcome string;
  fetch : string -> Outcome Response;
  nowISO : string
}.

(** The store, [localStorage], and the URLs requested so far (oldest
    first). *)
Record World : Type := mkWorld {
  store : WhatsNewState;
  localStorage : gmap string string;
  requests : list string
}.

Definition on_store (f : WhatsNewState -> WhatsNewState) (w : World) : World :=
  mkWorld (f (store w)) (localStorage w) (requests w).
Definition set_isOpen (v : bool) : World -> World :=
  on_store (fun s => mkState v (isLoading s) (release s) (error s)).
Definition set_isLoading (v : bool) : World -> World :=
  on_store (fun s => mkState (isOpen s) v (release s) (error s)).
Definition set_release (v : option ReleaseInfo) : World -> World :=
  on_store (fun s => mkState (isOpen s) (isLoading s) v (error s)).
Definition set_error (v : option string) : World -> World :=
  on_store (fun s => mkState (isOpen s) (isLoading s) (release s) v).

Definition getItem (key : string) : Task World (option string) :=
  TaskM.gets (fun w => localStorage w !! key).
Definition setItem (key value : string) : Task World unit :=
  TaskM.modify (fun w =>
    mkWorld (store w) (<[key := value]> (localStorage w)) (requests w)).

(** [a || b] on strings: the empty string is falsy. *)
Definition or_else (a b : string) : string :=
  if String.eqb a "" then b else a.

Definition parseRelease (data : ReleaseData) : ReleaseInfo :=
  mkRelease
    (JsRegExp.replace false false (JsRegExp.Seq JsRegExp.Bol (JsRegExp.Chr "v"))
       [] (tag_name data))
    (or_else (data_name data) ("Version " +:+ tag_name data))
    (or_else (data_body data) "No release notes available.")
    (published_at data)
    (html_url data).

Definition taggedUrl (v : string) : string :=
  "https://api.github.com/repos/" +:+ GITHUB_REPO +:+ "/releases/tags/v" +:+ v.
Definition untaggedUrl (v : string) : string :=
  "https://api.github.com/repos/" +:+ GITHUB_REPO +:+ "/releases/tags/" +:+ v.

(** The record shown when no release could be fetched. *)
Definition fallbackRelease (now v : string) : ReleaseInfo :=
  mkRelease v ("Version " +:+ v)
    "You've been updated to the latest version! Check the GitHub releases page for details."
    now
    ("https://github.com/" +:+ GITHUB_REPO +:+ "/releases").

Section Store.
Context (env : Env).

Definition doFetch (url : string) : Task World Response :=
  TaskM.modify (fun w =>
    mkWorld (store w) (localStorage w) (requests w ++ [url]));;
  TaskM.await (fetch env url).

Definition fetchReleaseNotes (v : string) : Task World unit :=
  TaskM.modify (set_isLoading true);;
  TaskM.modify (set_error None);;
  TaskM.try_finally
    (TaskM.try_catch
       (response ← doFetch (taggedUrl v);
        if negb (ok response) then
          altResponse ← doFetch (untaggedUrl v);
          if negb (ok altResponse) then
            TaskM.throw (ErrorObj "Error" "Release not found")
          else
            data ← TaskM.await (json altResponse);
            TaskM.modify (set_release (Some (parseRelease data)))
        else
          data ← TaskM.await (json response);
          TaskM.modify (set_release (Some (parseRelease data))))
       (fun e =>
          TaskM.modify (set_error (Some
            match e with
            | ErrorObj _ m => m
            | _ => "Failed to fetch release notes"
            end));;
          TaskM.modify (set_release (Some (fallbackRelease (nowISO env) v)))))
    (TaskM.modify (set_isLoading false)).

(** [!lastSeenVersion]: no entry, or an empty one. *)
Definition falsy (o : option string) : bool :=
  match o with
  | None => true
  | Some s => String.eqb s ""
  end.

Definition checkForWhatsNew : Task World unit :=
  TaskM.try_catch
    (currentVersion ← TaskM.await (getVersion env);
     lastSeenVersion ← getItem LAST_SEEN_VERSION_KEY;
     if falsy lastSeenVersion then
       setItem LAST_SEEN_VERSION_KEY currentVersion
     else if bool_decide (lastSeenVersion = Some currentVersion) then
       mret tt
     else
       fetchReleaseNotes currentVersion;;
       TaskM.modify (set_isOpen true))
    (fun e => mret tt).

Definition dismiss : Task World unit :=
  TaskM.modify (set_isOpen false);;
  rel ← TaskM.gets (fun w => release (store w));
  match rel with
  | Some r => setItem LAST_SEEN_VERSION_KEY (version r)
  | None => mret tt
  end.

Definition showCurrentReleaseNotes : Task World unit :=
  TaskM.try_catch
    (currentVersion ← TaskM.await (getVersion env);
     fetchReleaseNotes currentVersion;;
     TaskM.modify (set_isOpen true))
    (fun e => mret tt).
End Store.
End WhatsNew.

(* ===================================================================== *)
(** * debugLogger.ts: the console interceptor *)
(* ===================================================================== *)

Module DebugLogger.

(** The four console entry points. *)
Inductive Method : Type := log | warn | error | info.

(** A console argument, as [formatArgs] tells them apart: a string, an
    Error, or any other value with what [JSON.stringify] gives ([None]
    when it throws) and its [String(arg)] rendering. *)
Inductive Arg : Type :=
| AString (s : string)
| AError (ename message : string)
| AValue (json : option string) (rendering : string).

Definition formatArg (arg : Arg) : string :=
  match arg with
  | AString s => s
  | AError n m => n +:+ ": " +:+ m
  | AValue (Some j) _ => j
  | AValue None r => r
  end.

Definition formatArgs (args : list Arg) : string :=
  String.concat " " (map formatArg args).

Section Interceptor.
(** The functions found in the console when the module is loaded. *)
Context {Fn : Type}.

(** What a console slot can hold: a function [f] that was there, the
    copy [f.bind(console)] kept in [originalConsole], or the wrapper
    that [installDebugInterceptor] builds for a method. *)
Inductive ConsoleFn : Type :=
| Plain (f : Fn)
| BoundFn (f : Fn)
| Wrapper (m : Method).

Record Console : Type := mkConsole {
  c_log : ConsoleFn;
  c_warn : ConsoleFn;
  c_error : ConsoleFn;
  c_info : ConsoleFn
}.

Inductive Event : Type :=
| Printed (f : Fn) (args : list Arg)        (* the platform function ran *)
| Sent (level message : string).            (* invoke('write_frontend_log') *)

(** [console], the module constants [originalConsole] (the functions it
    bound) and [interceptorInstalled], [debugStore.isEnabled], and what
    has been printed and sent so far. *)
Record Runtime : Type := mkRuntime {
  console : Console;
  originalConsole : Method -> Fn;
  interceptorInstalled : bool;
  debugEnabled : bool;
  trace : list Event
}.

Definition emit (e : Event) (s : Runtime) : Runtime :=
  mkRuntime (console s) (originalConsole s) (interceptorInstalled s)
    (debugEnabled s) (trace s ++ [e]).
Definition set_console (c : Console) (s : Runtime) : Runtime :=
  mkRuntime c (originalConsole s) (interceptorInstalled s)
    (debugEnabled s) (trace s).
Definition set_installed (v : bool) (s : Runtime) : Runtime :=
  mkRuntime (console s) (originalConsole s) v (debugEnabled s) (trace s).

(** Module load: [originalConsole] binds the functions in place. *)
Definition loadModule (platform : Method -> Fn) (debug : bool) : Runtime :=
  mkRuntime
    (mkConsole (Plain (platform log)) (Plain (platform warn))
       (Plain (platform error)) (Plain (platform info)))
    platform false debug [].

(** [originalConsole.<m>(...args)] *)
Definition callOriginal (m : Method) (args : list Arg) : Runtime -> Runtime :=
  fun s => emit (Printed (originalConsole s m) args) s.

Definition sendToBackend (level message : string) : Runtime -> Runtime :=
  fun s => if negb (debugEnabled s) then s else emit (Sent level message) s.

Definition levelOf (m : Method) : string :=
  match m with
  | log => "INFO"
  | warn => "WARN"
  | error => "ERROR"
  | info => "INFO"
  end.

Definition slot (m : Method) (c : Console) : ConsoleFn :=
  match m with
  | log => c_log c
  | warn => c_warn c
  | error => c_error c
  | info => c_info c
  end.

(** Calling a function held in a console slot. *)
Definition call (f : ConsoleFn) (args : list Arg) (s : Runtime) : Runtime :=
  match f with
  | Plain g | BoundFn g => emit (Printed g args) s
  | Wrapper m =>
      sendToBackend (levelOf m) (formatArgs args) (callOriginal m args s)
  end.

Definition installDebugInterceptor (s : Runtime) : Runtime :=
  if interceptorInstalled s then s
  else
    let s := set_console
               (mkConsole (Wrapper log) (Wrapper warn) (Wrapper error)
                  (Wrapper info)) s in
    let s := set_installed true s in
    callOriginal log [AString "[Debug] Console interceptor installed"] s.

Definition uninstallDebugInterceptor (s : Runtime) : Runtime :=
  if negb (interceptorInstalled s) then s
  else
    let s := set_console
               (mkConsole (BoundFn (originalConsole s log))
                  (BoundFn (originalConsole s warn))
                  (BoundFn (originalConsole s error))
                  (BoundFn (originalConsole s info))) s in
    let s := set_installed false s in
    callOriginal log [AString "[Debug] Console interceptor uninstalled"] s.

Definition isInterceptorInstalled (s : Runtime) : bool :=
  interceptorInstalled s.
End Interceptor.

Arguments ConsoleFn : clear implicits.
Arguments Console : clear implicits.
Arguments Event : clear implicits.
Arguments Runtime : clear implicits.
End DebugLogger.

(* ===================================================================== *)
(** * McpLibraryState: derived counts, lookup and local setters *)
(* ===================================================================== *)

Module McpLibraryViews.
Section Store.
Context {Rest : Type}.

(** The value of [mcpCount]. *)
Record McpCount : Type := mkCount {
  total : nat;
  stdio : nat;
  sse : nat;
  http : nat
}.

Definition hasType (t : McpLibrary.McpType) (m : McpLibrary.Mcp Rest) : bool :=
  McpLibrary.typeIs (McpLibrary.type m) t.

Definition mcpCount (s : McpLibrary.McpLibraryState Rest) : McpCount :=
  mkCount
    (length (McpLibrary.mcps s))
    (length (List.filter (hasType McpLibrary.stdio) (McpLibrary.mcps s)))
    (length (List.filter (hasType McpLibrary.sse) (McpLibrary.mcps s)))
    (length (List.filter (hasType McpLibrary.http) (McpLibrary.mcps s))).

Definition updateMcp (mcp : McpLibrary.Mcp Rest)
    (s : McpLibrary.McpLibraryState Rest) : McpLibrary.McpLibraryState Rest :=
  McpLibrary.set_mcps
    (map (fun m => if (McpLibrary.id m =? McpLibrary.id mcp)%Z then mcp else m)
       (McpLibrary.mcps s)) s.

(** [this.mcps.find((m) => m.id === id)]; [None] is [undefined]. *)
Definition getMcpById (i : Z) (s : McpLibrary.McpLibraryState Rest)
  : option (McpLibrary.Mcp Rest) :=
  List.find (fun m => (McpLibrary.id m =? i)%Z) (McpLibrary.mcps s).

Definition setSearch (query : string) (s : McpLibrary.McpLibraryState Rest)
  : McpLibrary.McpLibraryState Rest :=
  McpLibrary.mkState (McpLibrary.mcps s) (McpLibrary.isLoading s)
    (McpLibrary.error s) query (McpLibrary.selectedType s).

Definition setTypeFilter (t : McpLibrary.TypeFilter)
    (s : McpLibrary.McpLibraryState Rest) : McpLibrary.McpLibraryState Rest :=
  McpLibrary.mkState (McpLibrary.mcps s) (McpLibrary.isLoading s)
    (McpLibrary.error s) (McpLibrary.searchQuery s) t.
End Store.

Arguments McpCount : clear implicits.
End McpLibraryViews.

(* ===================================================================== *)
(** * ProjectsState: mutations, reloads and lookup *)
(* ===================================================================== *)

Module ProjectsOps.
Section Store.
(** [Project], [GlobalMcp] and [CreateProjectRequest] of [$lib/types];
    the store reads only a project's [id]. *)
Context {Project GlobalMcp CreateProjectRequest : Type}.
Context (projectId : Project -> Z).

(** The commands besides the two loaders'. *)
Record Commands : Type := mkCommands {
  add_project : CreateProjectRequest -> Outcome Project;
  remove_project : Z -> Outcome unit;
  browse_for_project : Outcome (option string);
  assign_mcp_to_project : Z -> Z -> Outcome unit;
  remove_mcp_from_project : Z -> Z -> Outcome unit;
  toggle_project_mcp : Z -> bool -> Outcome unit;
  sync_project_config : Z -> Outcome unit;
  add_global_mcp : Z -> Outcome unit;
  remove_global_mcp : Z -> Outcome unit;
  toggle_global_mcp_assignment : Z -> bool -> Outcome unit;
  sync_global_config : Outcome unit
}.

Context (backend : Projects.Backend Project GlobalMcp).
Context (commands : Commands).

Abbreviation PState := (Projects.ProjectsState Project GlobalMcp).

Definition addProject (request : CreateProjectRequest)
  : Task PState Project :=
  project ← TaskM.await (add_project commands request);
  TaskM.modify (fun s =>
    Projects.set_projects (Projects.projects s ++ [project]) s);;
  mret project.

Definition removeProject (i : Z) : Task PState unit :=
  TaskM.await (remove_project commands i);;
  TaskM.modify (fun s =>
    Projects.set_projects
      (List.filter (fun p => negb (projectId p =? i)%Z) (Projects.projects s))
      s).

Definition browseForProject : Task PState (option string) :=
  TaskM.await (browse_for_project commands).

Definition assignMcpToProject (project mcp : Z) : Task PState unit :=
  TaskM.await (assign_mcp_to_project commands project mcp);;
  Projects.loadProjects backend.

Definition removeMcpFromProject (project mcp : Z) : Task PState unit :=
  TaskM.await (remove_mcp_from_project commands project mcp);;
  Projects.loadProjects backend.

Definition toggleProjectMcp (assignment : Z) (enabled : bool)
  : Task PState unit :=
  TaskM.await (toggle_project_mcp commands assignment enabled);;
  Projects.loadProjects backend.

Definition syncProjectConfig (project : Z) : Task PState unit :=
  TaskM.await (sync_project_config commands project).

Definition addGlobalMcp (mcp : Z) : Task PState unit :=
  TaskM.await (add_global_mcp commands mcp);;
  Projects.loadGlobalMcps backend.

Definition removeGlobalMcp (mcp : Z) : Task PState unit :=
  TaskM.await (remove_global_mcp commands mcp);;
  Projects.loadGlobalMcps backend.

Definition toggleGlobalMcp (i : Z) (enabled : bool) : Task PState unit :=
  TaskM.await (toggle_global_mcp_assignment commands i enabled);;
  Projects.loadGlobalMcps backend.

Definition syncGlobalConfig : Task PState unit :=
  TaskM.await (sync_global_config commands).

Definition getProjectById (i : Z) (s : PState) : option Project :=
  List.find (fun p => (projectId p =? i)%Z) (Projects.projects s).
End Store.

Arguments Commands : clear implicits.
End ProjectsOps.

(* ===================================================================== *)
(** * stores/debug.svelte.ts: DebugState *)
(* ===================================================================== *)

Module DebugStore.
Section Store.
(** The type of [durationMs]. *)
Context {Num : Type}.

Record DebugState : Type := mkState {
  isEnabled : bool;
  logFilePath : option string;
  isLoading : bool
}.

(** A backend command with its argument bag. *)
Inductive Command : Type :=
| is_debug_mode_enabled
| get_debug_log_path
| enable_debug_mode
| disable_debug_mode
| open_logs_folder
| write_frontend_log (level message : string) (context : option string)
| write_invoke_log (command : string) (durationMs : Num) (success : bool)
    (args : option string) (error : option string).

(** What the backend settles each command with. *)
Record Backend : Type := mkBackend {
  on_is_enabled : Outcome bool;
  on_get_path : Outcome (option string);
  on_enable : Outcome string;
  on_disable : Outcome unit;
  on_open_folder : Outcome unit;
  on_write_log : string -> string -> option string -> Outcome unit;
  on_write_invoke :
    string -> Num -> bool -> option string -> option string -> Outcome unit
}.

(** The store and the commands invoked so far (oldest first). *)
Record World : Type := mkWorld {
  store : DebugState;
  invoked : list Command
}.

Definition on_store (f : DebugState -> DebugState) (w : World) : World :=
  mkWorld (f (store w)) (invoked w).
Definition set_isEnabled (v : bool) : World -> World :=
  on_store (fun s => mkState v (logFilePath s) (isLoading s)).
Definition set_logFilePath (v : option string) : World -> World :=
  on_store (fun s => mkState (isEnabled s) v (isLoading s)).
Definition set_isLoading (v : bool) : World -> World :=
  on_store (fun s => mkState (isEnabled s) (logFilePath s) v).

Context (backend : Backend).

(** Whether the console interceptor of debugLogger.ts is installed, and
    [JSON.stringify] of a rejection value that is neither a string nor an
    Error (it arrived as JSON, so the call returns its text). *)
Context (intercepted : bool).
Context (jsonOf : Thrown -> string).

(** [invoke(cmd, args)]: the command goes out, the backend settles it. *)
Definition invoke {A} (cmd : Command) (outcome : Outcome A) : Task World A :=
  TaskM.modify (fun w => mkWorld (store w) (invoked w ++ [cmd]));;
  TaskM.await outcome.

(** A caught value as the console argument [formatArgs] sees; for a
    value that is neither a string nor an Error it takes the JSON text
    and never calls [String]. *)
Definition thrownArg (e : Thrown) : DebugLogger.Arg :=
  match e with
  | StringVal s => DebugLogger.AString s
  | ErrorObj n m => DebugLogger.AError n m
  | OtherVal r => DebugLogger.AValue (Some (jsonOf e)) r
  | Unprintable _ => DebugLogger.AValue (Some (jsonOf e)) (jsonOf e)
  end.

(** What [console.error(...args)] sends: nothing when the platform
    function is in place; the interceptor's wrapper sends the formatted
    line as an ERROR entry while [isEnabled] holds. *)
Definition forwarded (enabled : bool) (args : list DebugLogger.Arg)
  : list Command :=
  if (intercepted && enabled)%bool
  then [write_frontend_log "ERROR" (DebugLogger.formatArgs args) None]
  else [].

(** [console.error(...args)]; the entry is sent and forgotten. *)
Definition consoleError (args : list DebugLogger.Arg) : Task World unit :=
  TaskM.modify (fun w =>
    mkWorld (store w) (invoked w ++ forwarded (isEnabled (store w)) args)).

Definition load : Task World unit :=
  TaskM.try_catch
    (enabled ← invoke is_debug_mode_enabled (on_is_enabled backend);
     TaskM.modify (set_isEnabled enabled);;
     if (enabled : bool) then
       path ← invoke get_debug_log_path (on_get_path backend);
       TaskM.modify (set_logFilePath path)
     else mret tt)
    (fun e =>
       consoleError
         [DebugLogger.AString "Failed to load debug state:"; thrownArg e]).

Definition enable : Task World unit :=
  TaskM.modify (set_isLoading true);;
  TaskM.try_finally
    (TaskM.try_catch
       (path ← invoke enable_debug_mode (on_enable backend);
        TaskM.modify (set_logFilePath (Some path));;
        TaskM.modify (set_isEnabled true))
       (fun e =>
          consoleError
            [DebugLogger.AString "Failed to enable debug mode:"; thrownArg e];;
          TaskM.throw e))
    (TaskM.modify (set_isLoading false)).

Definition disable : Task World unit :=
  TaskM.modify (set_isLoading true);;
  TaskM.try_finally
    (TaskM.try_catch
       (invoke disable_debug_mode (on_disable backend);;
        TaskM.modify (set_isEnabled false))
       (fun e =>
          consoleError
            [DebugLogger.AString "Failed to disable debug mode:"; thrownArg e];;
          TaskM.throw e))
    (TaskM.modify (set_isLoading false)).

Definition toggle : Task World unit :=
  enabled ← TaskM.gets (fun w => isEnabled (store w));
  if (enabled : bool) then disable else enable.

Definition openLogsFolder : Task World unit :=
  TaskM.try_catch
    (invoke open_logs_folder (on_open_folder backend))
    (fun e =>
       consoleError
         [DebugLogger.AString "Failed to open logs folder:"; thrownArg e];;
       TaskM.throw e).

(** [value || null] on an optional string. *)
Definition or_null (o : option string) : option string :=
  match o with
  | Some s => if String.eqb s "" then None else Some s
  | None => None
  end.

Definition writeLog (level message : string) (context : option string)
  : Task World unit :=
  enabled ← TaskM.gets (fun w => isEnabled (store w));
  if negb enabled then mret tt
  else
    TaskM.try_catch
      (invoke (write_frontend_log level message (or_null context))
         (on_write_log backend level message (or_null context)))
      (fun e => mret tt).

Definition log : string -> option string -> Task World unit :=
  writeLog "INFO".
Definition warn : string -> option string -> Task World unit :=
  writeLog "WARN".
Definition error : string -> option string -> Task World unit :=
  writeLog "ERROR".

(** [args ? JSON.stringify(args) : null]: [args] is absent or falsy
    ([None]), or a value whose serialization settles with a string or
    throws. *)
Definition stringifyArgs (args : option (Outcome string))
  : Task World (option string) :=
  match args with
  | None => mret None
  | Some o => j ← TaskM.await o; mret (Some j)
  end.

Definition logInvoke (command : string) (durationMs : Num) (success : bool)
    (args : option (Outcome string)) (err : option string)
  : Task World unit :=
  enabled ← TaskM.gets (fun w => isEnabled (store w));
  if negb enabled then mret tt
  else
    TaskM.try_catch
      (a ← stringifyArgs args;
       invoke (write_invoke_log command durationMs success a (or_null err))
         (on_write_invoke backend command durationMs success a (or_null err)))
      (fun e => mret tt).
End Store.

Arguments Command : clear implicits.
Arguments Backend : clear implicits.
Arguments World : clear implicits.
End DebugStore.

(* ===================================================================== *)
(** * debugLogger.ts: debugInvoke *)
(* ===================================================================== *)

Module DebugInvoke.
Section Wrapper.
(** Readings of [performance.now()] and their difference. *)
Context {Num : Type} (elapsed : Num -> Num -> Num).

(** An argument bag handed to [write_invoke_log]. *)
Record InvokeLog : Type := mkLog {
  command : string;
  durationMs : Num;
  success : bool;
  args : option string;
  error : option string
}.

(** [debugStore.isEnabled] and the invoke logs sent so far. *)
Record World : Type := mkWorld {
  debugEnabled : bool;
  sent : list InvokeLog
}.

(** The two clock readings of a call. *)
Record Clock : Type := mkClock {
  started : Num;
  settled : Num
}.

Context (clock : Clock).

(** [args ? JSON.stringify(args) : null], as in [DebugStore]. *)
Definition stringifyArgs (a : option (Outcome string))
  : Task World (option string) :=
  match a with
  | None => mret None
  | Some o => j ← TaskM.await o; mret (Some j)
  end.

(** [invoke('write_invoke_log', ...).catch(() => {})]: sent and
    forgotten. *)
Definition sendLog (l : InvokeLog) : Task World unit :=
  TaskM.modify (fun w => mkWorld (debugEnabled w) (sent w ++ [l])).

(** [e instanceof Error ? e.message : String(e)] *)
Definition errorMessage (e : Thrown) : Outcome string :=
  match e with
  | ErrorObj _ m => Resolved m
  | _ => String_ e
  end.

Definition debugInvoke {T} (cmd : string) (a : option (Outcome string))
    (outcome : Outcome T) : Task World T :=
  TaskM.try_catch
    (result ← TaskM.await outcome;
     enabled ← TaskM.gets debugEnabled;
     (if (enabled : bool) then
        j ← stringifyArgs a;
        sendLog (mkLog cmd (elapsed (settled clock) (started clock)) true j
                   None)
      else mret tt);;
     mret result)
    (fun e =>
       message ← TaskM.await (errorMessage e);
       enabled ← TaskM.gets debugEnabled;
       (if (enabled : bool) then
          j ← stringifyArgs a;
          sendLog (mkLog cmd (elapsed (settled clock) (started clock)) false
                     j (Some message))
        else mret tt);;
       TaskM.throw e).
End Wrapper.

Arguments InvokeLog : clear implicits.
Arguments World : clear implicits.
Arguments Clock : clear implicits.
End DebugInvoke.

(* ===================================================================== *)
(** * Vocabulary of the statements, and sample inputs *)
(* ===================================================================== *)

(** The policy stated for a store's load: it does not throw, [isLoading]
    is false when it returns, and [error] is [null] after a success and the
    text of the failure after a failure (so an older error is cleared). *)
Definition load_policy {St A : Type} (isLoading : St -> bool)
    (error : St -> option string) (backendOutcome : Outcome A)
    (run : Task St unit) (s : St) : Prop :=
  fst (run s) = Resolved tt /\
  isLoading (snd (run s)) = false /\
  match backendOutcome with
  | Resolved _ => error (snd (run s)) = None
  | Rejected e =>
      forall text, String_ e = Resolved text ->
        error (snd (run s)) = Some text
  end.

(** A backend outcome whose failure, if any, [String] can render. *)
Definition renderable {A : Type} (backendOutcome : Outcome A) : Prop :=
  match backendOutcome with
  | Resolved _ => True
  | Rejected e => exists text, String_ e = Resolved text
  end.

(** The policy stated for a mutation: a rejected backend call rejects the
    operation with the same value and leaves the state as it was, so the
    state differs afterwards only when the call was resolved. *)
Definition failure_propagates {St A B : Type} (backendOutcome : Outcome A)
    (run : Task St B) (s : St) : Prop :=
  (forall e, backendOutcome = Rejected e -> run s = (Rejected e, s)) /\
  (snd (run s) <> s -> exists a, backendOutcome = Resolved a).

Section ViewVocabulary.
Import McpLibrary.
Context {Rest : Type}.
Context (toLowerCase : string -> string).
Context (localeCompare : string -> string -> Z).
Implicit Types (m a b : McpLibrary.Mcp Rest).

(** The entities the view is to show, in the words of the description:
    the query is empty or occurs, both sides lower-cased, in the name,
    the description or some tag; and the type filter is ['all'] or the
    entity's type. *)
Definition selectedBy (query : string) (sel : TypeFilter) m : bool :=
  (String.eqb query ""
   || JsRegExp.includes (toLowerCase (name m)) (toLowerCase query)
   || match description m with
      | Some d => JsRegExp.includes (toLowerCase d) (toLowerCase query)
      | None => false
      end
   || match tags m with
      | Some ts =>
          existsb (fun t =>
            JsRegExp.includes (toLowerCase t) (toLowerCase query)) ts
      | None => false
      end)
  && match sel with
     | all => true
     | only t => typeIs (type m) t
     end.

(** Favourites first; among equal favourite status, by [localeCompare]
    of the names. *)
Definition favoritesThenName a b : Prop :=
  (isFavorite a = true /\ isFavorite b = false) \/
  (isFavorite a = isFavorite b /\
   (localeCompare (name a) (name b) <= 0)%Z).

End ViewVocabulary.

Section EngineVocabulary.
Import JsRegExp.

(** A regular expression that starts with the literal character [c]. *)
Fixpoint starts_with_chr (c : ascii) (r : regex) : bool :=
  match r with
  | Chr c' => Ascii.eqb c' c
  | Seq r1 _ => starts_with_chr c r1
  | Group _ r1 => starts_with_chr c r1
  | _ => false
  end.

(** The rest of the input and every capture are made of characters in
    [P]. *)
Definition caps_in (P : ascii -> Prop) (cs : list (nat * list ascii)) : Prop :=
  Forall (fun p => Forall P (snd p)) cs.
Definition state_in (P : ascii -> Prop) (st : mstate) : Prop :=
  Forall P (rest st) /\ caps_in P (caps st).

Definition piece_in (P : ascii -> Prop) (p : piece) : Prop :=
  match p with
  | Txt s => Forall P (list_ascii_of_string s)
  | _ => True
  end.

Definition asterisk : ascii := "*"%char.

End EngineVocabulary.

Section SampleInputs.
Import McpLibrary.

(** Three cached entities; [alpha] is a favourite. *)
Definition beta : Mcp unit :=
  mkMcp 1 "beta-server" (Some "Files") "stdio" None false false tt.
Definition alpha : Mcp unit :=
  mkMcp 2 "Alpha" None "http" (Some ["search"; "web"]) true false tt.
Definition gamma : Mcp unit :=
  mkMcp 3 "gamma" (Some "A test server") "sse" None false true tt.
Definition sampleStore : McpLibraryState unit :=
  mkState [beta; alpha; gamma] false None "" all.

(** A backend that accepts every command. *)
Definition acceptingBackend : Backend unit unit :=
  mkBackend (Resolved [beta; alpha; gamma]) (fun _ => Resolved beta)
    (fun _ _ => Resolved alpha) (fun _ => Resolved tt)
    (fun _ => Resolved gamma) (fun _ _ => Resolved tt).

(** ASCII lower-casing and comparison by length stand in for the
    runtime's [toLowerCase] and [localeCompare]. *)
Definition asciiLower (c : ascii) : ascii :=
  let n := nat_of_ascii c in
  if ((65 <=? n)%nat && (n <=? 90)%nat)%bool then ascii_of_nat (n + 32) else c.
Definition lowerAscii (s : string) : string :=
  string_of_list_ascii (map asciiLower (list_ascii_of_string s)).
Definition byLength (x y : string) : Z :=
  (Z.of_nat (String.length x) - Z.of_nat (String.length y))%Z.

End SampleInputs.

(** A projects store with nothing loaded, and a backend whose
    [get_global_mcps] is rejected. *)
Definition emptyProjects : Projects.ProjectsState unit unit :=
  Projects.mkState [] [] false None.
Definition failingGlobalMcps : Projects.Backend unit unit :=
  Projects.mkBackend (Resolved []) (Rejected (StringVal "database is locked")).

Section WhatsNewSampleInputs.
Import WhatsNew.

(** Version 1.2.0 is running; both release endpoints answer 404. *)
Definition notFound : Response :=
  mkResponse false (Rejected (ErrorObj "SyntaxError" "Unexpected token")).
Definition offlineEnv : Env :=
  mkEnv (Resolved "1.2.0") (fun _ => Resolved notFound)
    "2025-01-01T00:00:00.000Z".
Definition freshWorld : World :=
  mkWorld (mkState false false None None) ∅ [].
Definition seenWorld : World :=
  mkWorld (mkState false false None None)
    {[ LAST_SEEN_VERSION_KEY := "1.2.0" ]} [].

End WhatsNewSampleInputs.

(** ** Vocabulary of the further properties *)

(** The elements that tie with [x] under a comparator: neither is after
    the other. *)
Definition tiesWith {A : Type} (cmp : A -> A -> Z) (x y : A) : bool :=
  (cmp x y <=? 0)%Z && (cmp y x <=? 0)%Z.

(** A mutation that reloads the projects: a rejected command rejects the
    operation and leaves the store alone; after a resolved command
    [isLoading] ends false and the outcome is the reload's: a resolved
    reload replaces the list, a rejected one keeps it and sets [error]
    to the text of the failure, unless [String] throws for the failure,
    which then rejects the operation and leaves [error] cleared. *)
Definition reloads_projects {Project GlobalMcp : Type}
    (command : Outcome unit) (backend : Projects.Backend Project GlobalMcp)
    (run : Task (Projects.ProjectsState Project GlobalMcp) unit)
    (s : Projects.ProjectsState Project GlobalMcp) : Prop :=
  (forall e, command = Rejected e -> run s = (Rejected e, s)) /\
  (command = Resolved tt ->
     Projects.isLoading (snd (run s)) = false /\
     Projects.globalMcps (snd (run s)) = Projects.globalMcps s /\
     (forall l, Projects.get_all_projects backend = Resolved l ->
        fst (run s) = Resolved tt /\
        Projects.projects (snd (run s)) = l /\
        Projects.error (snd (run s)) = None) /\
     (forall e text, Projects.get_all_projects backend = Rejected e ->
        String_ e = Resolved text ->
        fst (run s) = Resolved tt /\
        Projects.projects (snd (run s)) = Projects.projects s /\
        Projects.error (snd (run s)) = Some text) /\
     (forall e t, Projects.get_all_projects backend = Rejected e ->
        String_ e = Rejected t ->
        fst (run s) = Rejected t /\
        Projects.projects (snd (run s)) = Projects.projects s /\
        Projects.error (snd (run s)) = None)).

(** A mutation that reloads the global MCPs: as above, but a rejected
    reload leaves no trace in the store at all. *)
Definition reloads_globalMcps {Project GlobalMcp : Type}
    (command : Outcome unit) (backend : Projects.Backend Project GlobalMcp)
    (run : Task (Projects.ProjectsState Project GlobalMcp) unit)
    (s : Projects.ProjectsState Project GlobalMcp) : Prop :=
  (forall e, command = Rejected e -> run s = (Rejected e, s)) /\
  (command = Resolved tt ->
     fst (run s) = Resolved tt /\
     (forall l, Projects.get_global_mcps backend = Resolved l ->
        snd (run s) = Projects.set_globalMcps l s) /\
     (forall e, Projects.get_global_mcps backend = Rejected e ->
        snd (run s) = s)).

(** A regular expression that cannot match unless the character at the
    position is [c]; a leading [^] is looked through. *)
Fixpoint needs_chr (c : ascii) (r : JsRegExp.regex) : bool :=
  match r with
  | JsRegExp.Chr c' => Ascii.eqb c' c
  | JsRegExp.Seq JsRegExp.Bol r2 => needs_chr c r2
  | JsRegExp.Seq r1 _ => needs_chr c r1
  | JsRegExp.Group _ r1 => needs_chr c r1
  | _ => false
  end.

(** Emphasis markers as the italic rule reads them.  [closes s]: an
    asterisk lies ahead in [s] before any line terminator.  [opens s],
    for the text [s] after an asterisk: a character that is no line
    terminator follows, and then the line closes. *)
Fixpoint closes (s : list ascii) : bool :=
  match s with
  | [] => false
  | c :: tl =>
      Ascii.eqb c "*" || (negb (JsRegExp.is_line_terminator c) && closes tl)
  end.

Definition opens (s : list ascii) : bool :=
  match s with
  | [] => false
  | c :: tl => negb (JsRegExp.is_line_terminator c) && closes tl
  end.

(** No line of the text holds two asterisks with at least one character
    between them. *)
Fixpoint emphasisFree_list (s : list ascii) : bool :=
  match s with
  | [] => true
  | c :: tl => negb (Ascii.eqb c "*" && opens tl) && emphasisFree_list tl
  end.

Definition emphasisFree (text : string) : bool :=
  emphasisFree_list (list_ascii_of_string text).

(** Characters that are neither an asterisk nor a line terminator. *)
Definition plain (c : ascii) : Prop :=
  c <> "*"%char /\ JsRegExp.is_line_terminator c = false.

(** The end of a line: the end of the text or a line terminator. *)
Definition line_end (s : list ascii) : Prop :=
  match s with
  | [] => True
  | c :: _ => JsRegExp.is_line_terminator c = true
  end.

(** Two texts in which the emphasis rules read the same marker pairs. *)
Definition reads_alike (out s : list ascii) : Prop :=
  closes out = closes s /\ opens out = opens s /\
  emphasisFree_list out = emphasisFree_list s.

(** A fenced code block holding [code]. *)
Definition fenced (code : string) : string := "```" +:+ code +:+ "```".

(** The characters that start one of [renderMarkdown]'s patterns. *)
Definition markupChars : list ascii :=
  ["#"; "*"; "`"; "["; "-"; "<"; JsRegExp.LF]%char.

(** A text none of whose characters starts a pattern. *)
Definition plainText (text : string) : bool :=
  forallb (fun c => negb (existsb (Ascii.eqb c) markupChars))
    (list_ascii_of_string text).

(** [tag_name.replace(/^v/, '')] *)
Definition stripV (tag : string) : string :=
  JsRegExp.replace false false
    (JsRegExp.Seq JsRegExp.Bol (JsRegExp.Chr "v")) [] tag.

(** Sample inputs of the further properties: a debug backend that accepts
    every command, the debug store off and on, a console whose functions
    are named by their method, a clock, and a world whose marker is an
    older version; also a debug backend that rejects the store's
    commands, a stand-in for [JSON.stringify] on rejection values, and a
    rejection value that [String] cannot convert. *)
Definition acceptingDebug : DebugStore.Backend Z :=
  DebugStore.mkBackend (Resolved true) (Resolved (Some "/tmp/debug.log"))
    (Resolved "/tmp/debug.log") (Resolved tt) (Resolved tt)
    (fun _ _ _ => Rejected (StringVal "disk full"))
    (fun _ _ _ _ _ => Rejected (StringVal "disk full")).
Definition refusingDebug : DebugStore.Backend Z :=
  DebugStore.mkBackend (Rejected (StringVal "denied"))
    (Rejected (StringVal "denied")) (Rejected (StringVal "denied"))
    (Rejected (StringVal "denied")) (Rejected (StringVal "denied"))
    (fun _ _ _ => Resolved tt) (fun _ _ _ _ _ => Resolved tt).
Definition sampleJson (e : Thrown) : string := "{}".
Definition notConvertible : Thrown :=
  Unprintable (ErrorObj "TypeError" "Cannot convert object to primitive value").
Definition debugOff : DebugStore.World Z :=
  DebugStore.mkWorld (DebugStore.mkState false None false) [].
Definition debugOn : DebugStore.World Z :=
  DebugStore.mkWorld
    (DebugStore.mkState true (Some "/tmp/debug.log") false) [].
Definition sampleClock : DebugInvoke.Clock Z := DebugInvoke.mkClock 100%Z 142%Z.
Definition invokeOff : DebugInvoke.World Z := DebugInvoke.mkWorld false [].
Definition invokeOn : DebugInvoke.World Z := DebugInvoke.mkWorld true [].
Definition staleWorld : WhatsNew.World :=
  WhatsNew.mkWorld (WhatsNew.mkState false false None None)
    {[ WhatsNew.LAST_SEEN_VERSION_KEY := "1.1.0" ]} [].
Definition shownWorld : WhatsNew.World :=
  WhatsNew.mkWorld
    (WhatsNew.mkState true false
       (Some (WhatsNew.mkRelease "1.2.0" "Version 1.2.0" "notes" "t" "u"))
       None)
    {[ WhatsNew.LAST_SEEN_VERSION_KEY := "1.1.0" ]} [].

(* ===================================================================== *)
(** * Properties *)
(* ===================================================================== *)

Ltac task_unfold :=
  unfold mbind, mret, task_bind, task_ret, TaskM.bind, TaskM.ret,
    TaskM.await, TaskM.modify, TaskM.gets, TaskM.throw, TaskM.try_catch,
    TaskM.try_finally in *.

(** ** The task monad *)

Section TaskFacts.
Context {St A B C : Type}.

Lemma task_bind_ret_l (a : A) (f : A -> Task St B) (s : St) :
  (mret a ≫= f) s = f a s.
Proof. reflexivity. Qed.

Lemma task_bind_ret_r (m : Task St A) (s : St) :
  (m ≫= mret) s = m s.
Proof. task_unfold. destruct (m s) as [[a|e] s']; reflexivity. Qed.

Lemma task_bind_assoc (m : Task St A) (f : A -> Task St B)
    (g : B -> Task St C) (s : St) :
  ((m ≫= f) ≫= g) s = (m ≫= (fun a => f a ≫= g)) s.
Proof. task_unfold. destruct (m s) as [[a|e] s']; reflexivity. Qed.

Lemma modify_then (f : St -> St) (k : Task St B) (s : St) :
  (TaskM.modify f;; k) s = k (f s).
Proof. reflexivity. Qed.

(** A handler that cannot reject makes the whole [try]/[catch] total. *)
Lemma try_catch_total (body : Task St unit) (h : Thrown -> Task St unit)
    (s : St) :
  (forall e s', fst (h e s') = Resolved tt) ->
  fst (TaskM.try_catch body h s) = Resolved tt.
Proof.
  intros Hh. unfold TaskM.try_catch.
  destruct (body s) as [[[]|e] s']; [reflexivity | apply Hh].
Qed.

(** The [finally] block has the last word on the state. *)
Lemma try_finally_modify (body : Task St A) (f : St -> St) (s : St) :
  TaskM.try_finally body (TaskM.modify f) s
    = (fst (body s), f (snd (body s))).
Proof.
  unfold TaskM.try_finally, TaskM.modify. destruct (body s); reflexivity.
Qed.
End TaskFacts.

(** ** Lists *)

Section ListFacts.
Context {A B : Type}.

Lemma lookup_map (f : A -> B) (l : list A) (k : nat) :
  map f l !! k = f <$> (l !! k).
Proof.
  revert k; induction l as [|x l IH]; intros [|k]; simpl; auto.
Qed.

Lemma map_unchanged (f : A -> A) (l : list A) :
  Forall (fun x => f x = x) l -> map f l = l.
Proof. induction 1; simpl; congruence. Qed.

Lemma filter_unchanged (p : A -> bool) (l : list A) :
  Forall (fun x => p x = true) l -> List.filter p l = l.
Proof.
  induction 1 as [|x l Hx _ IH]; simpl; [reflexivity|].
  rewrite Hx, IH; reflexivity.
Qed.
End ListFacts.

(** ** The MCP library store *)

Section McpLibraryFacts.
Import McpLibrary.
Context {Rest CreateMcpRequest : Type}.
Abbreviation Mcp := (McpLibrary.Mcp Rest).
Abbreviation State := (McpLibrary.McpLibraryState Rest).
Abbreviation Backend := (McpLibrary.Backend Rest CreateMcpRequest).
Implicit Types (b : Backend) (s : State) (i : Z) (m : Mcp).

Lemma rejected_call_propagates {St A B : Type} (o : Outcome A)
    (run : Task St B) (s : St) :
  (forall e, o = Rejected e -> run s = (Rejected e, s)) ->
  failure_propagates o run s.
Proof.
  intros H. split; [exact H|]. intros Hne.
  destruct o as [a|e]; [eauto|]. destruct Hne. rewrite (H e eq_refl).
  reflexivity.
Qed.

(** C4. For each mutation of the library (create, update, delete,
    duplicate, toggleGlobal): when the backend call is rejected the
    operation rejects with the same value and the store, hence the cached
    [mcps] list, is exactly as before; the store changes only when the
    call was resolved. *)
Theorem mutation_failure_propagates b s :
  (forall request,
     failure_propagates (create_mcp b request) (create b request) s) /\
  (forall i request,
     failure_propagates (update_mcp b i request) (update b i request) s) /\
  (forall i,
     failure_propagates (delete_mcp b i) (McpLibrary.delete b i) s) /\
  (forall i,
     failure_propagates (duplicate_mcp b i) (duplicate b i) s) /\
  (forall i enabled,
     failure_propagates (toggle_global_mcp b i enabled)
       (toggleGlobal b i enabled) s).
Proof.
  split; [|split; [|split; [|split]]]; intros;
    apply rejected_call_propagates; intros e He;
    unfold create, update, McpLibrary.delete, duplicate, toggleGlobal;
    task_unfold; rewrite He; reflexivity.
Qed.

(** What a resolved [toggleGlobal] leaves in the store. *)
Lemma toggleGlobal_resolved b s i enabled :
  toggle_global_mcp b i enabled = Resolved tt ->
  toggleGlobal b i enabled s =
    (Resolved tt,
     set_mcps (map (fun m => if (id m =? i)%Z
                             then withEnabledGlobal enabled m else m)
                 (mcps s)) s).
Proof.
  intros H. unfold toggleGlobal. task_unfold. rewrite H. reflexivity.
Qed.

(** C5. After a successful [toggleGlobal i enabled] the list has the same
    length, and position by position: an entity whose id is [i] has
    [isEnabledGlobal = enabled] and every other field as before, any
    other entity is the same record. *)
Theorem toggleGlobal_frame b s i enabled :
  toggle_global_mcp b i enabled = Resolved tt ->
  let s' := snd (toggleGlobal b i enabled s) in
  fst (toggleGlobal b i enabled s) = Resolved tt /\
  length (mcps s') = length (mcps s) /\
  forall (k : nat) m, mcps s !! k = Some m ->
    exists m', mcps s' !! k = Some m' /\
      (id m = i ->
         isEnabledGlobal m' = enabled /\
         id m' = id m /\ name m' = name m /\
         description m' = description m /\ type m' = type m /\
         tags m' = tags m /\ isFavorite m' = isFavorite m /\
         others m' = others m) /\
      (id m <> i -> m' = m).
Proof.
  intros H. rewrite (toggleGlobal_resolved _ _ _ _ H). simpl.
  split; [reflexivity|]. split; [apply length_map|].
  intros k m Hk. rewrite lookup_map, Hk. simpl.
  eexists; split; [reflexivity|].
  destruct (Z.eqb_spec (id m) i) as [Heq|Hne]; split; intros Hi;
    try contradiction; simpl; auto 10.
Qed.

(** C10. When no cached entity has the id, a successful [update],
    [toggleGlobal] or [delete] leaves the cached list as it was. *)
Theorem absent_id_unchanged b s i :
  Forall (fun m => id m <> i) (mcps s) ->
  (forall request mcp, update_mcp b i request = Resolved mcp ->
     update b i request s = (Resolved mcp, s)) /\
  (forall enabled, toggle_global_mcp b i enabled = Resolved tt ->
     toggleGlobal b i enabled s = (Resolved tt, s)) /\
  (delete_mcp b i = Resolved tt ->
     McpLibrary.delete b i s = (Resolved tt, s)).
Proof.
  intros Habs.
  assert (Hmap : forall g : Mcp -> Mcp,
    map (fun m => if (id m =? i)%Z then g m else m) (mcps s) = mcps s).
  { intros g. apply map_unchanged. eapply Forall_impl; [exact Habs|].
    intros m Hm. simpl in Hm. destruct (Z.eqb_spec (id m) i); congruence. }
  assert (Hfil :
    List.filter (fun m => negb (id m =? i)%Z) (mcps s) = mcps s).
  { apply filter_unchanged. eapply Forall_impl; [exact Habs|].
    intros m Hm. simpl in Hm. destruct (Z.eqb_spec (id m) i);
      [contradiction | reflexivity]. }
  destruct s as [ms ld er sq st]; simpl in *.
  repeat split; intros;
    unfold update, toggleGlobal, McpLibrary.delete; task_unfold;
    match goal with H : _ = Resolved _ |- _ => rewrite H end;
    unfold set_mcps; simpl.
  - rewrite (Hmap (fun _ => mcp)). reflexivity.
  - rewrite (Hmap (withEnabledGlobal enabled)). reflexivity.
  - rewrite Hfil. reflexivity.
Qed.
End McpLibraryFacts.

(** ** The load operations of the entity-list stores *)

Section LoadFacts.
Context {Rest CreateMcpRequest Project GlobalMcp : Type}.
Implicit Types (mb : McpLibrary.Backend Rest CreateMcpRequest)
  (ms : McpLibrary.McpLibraryState Rest)
  (pb : Projects.Backend Project GlobalMcp)
  (ps : Projects.ProjectsState Project GlobalMcp).

(** What [mcpLibrary.load] returns and leaves, outcome by outcome. *)
Lemma mcpLibrary_load_runs mb ms :
  McpLibrary.load mb ms =
    match McpLibrary.get_all_mcps mb with
    | Resolved loaded =>
        (Resolved tt,
         McpLibrary.mkState loaded false None (McpLibrary.searchQuery ms)
           (McpLibrary.selectedType ms))
    | Rejected e =>
        match String_ e with
        | Resolved text =>
            (Resolved tt,
             McpLibrary.mkState (McpLibrary.mcps ms) false (Some text)
               (McpLibrary.searchQuery ms) (McpLibrary.selectedType ms))
        | Rejected t =>
            (Rejected t,
             McpLibrary.mkState (McpLibrary.mcps ms) false None
               (McpLibrary.searchQuery ms) (McpLibrary.selectedType ms))
        end
    end.
Proof.
  unfold McpLibrary.load. task_unfold.
  destruct (McpLibrary.get_all_mcps mb) as [l|e]; [reflexivity|].
  cbn. destruct (String_ e); reflexivity.
Qed.

Lemma loadProjects_runs pb ps :
  Projects.loadProjects pb ps =
    match Projects.get_all_projects pb with
    | Resolved loaded =>
        (Resolved tt,
         Projects.mkState loaded (Projects.globalMcps ps) false None)
    | Rejected e =>
        match String_ e with
        | Resolved text =>
            (Resolved tt,
             Projects.mkState (Projects.projects ps) (Projects.globalMcps ps)
               false (Some text))
        | Rejected t =>
            (Rejected t,
             Projects.mkState (Projects.projects ps) (Projects.globalMcps ps)
               false None)
        end
    end.
Proof.
  unfold Projects.loadProjects. task_unfold.
  destruct (Projects.get_all_projects pb) as [l|e]; [reflexivity|].
  cbn. destruct (String_ e); reflexivity.
Qed.

Lemma mcpLibrary_load_policy mb ms :
  renderable (McpLibrary.get_all_mcps mb) ->
  load_policy McpLibrary.isLoading McpLibrary.error
    (McpLibrary.get_all_mcps mb) (McpLibrary.load mb) ms.
Proof.
  unfold load_policy, renderable. rewrite mcpLibrary_load_runs.
  destruct (McpLibrary.get_all_mcps mb) as [l|e]; [auto|].
  intros [text ->]. cbn. repeat split. intros ? [= <-]. reflexivity.
Qed.

Lemma loadProjects_policy pb ps :
  renderable (Projects.get_all_projects pb) ->
  load_policy Projects.isLoading Projects.error
    (Projects.get_all_projects pb) (Projects.loadProjects pb) ps.
Proof.
  unfold load_policy, renderable. rewrite loadProjects_runs.
  destruct (Projects.get_all_projects pb) as [l|e]; [auto|].
  intros [text ->]. cbn. repeat split. intros ? [= <-]. reflexivity.
Qed.

Lemma loadGlobalMcps_frame pb ps :
  fst (Projects.loadGlobalMcps pb ps) = Resolved tt /\
  Projects.isLoading (snd (Projects.loadGlobalMcps pb ps))
    = Projects.isLoading ps /\
  Projects.error (snd (Projects.loadGlobalMcps pb ps)) = Projects.error ps.
Proof.
  unfold Projects.loadGlobalMcps. task_unfold.
  destruct (Projects.get_global_mcps pb); simpl; auto.
Qed.

(** C3, as amended.  [mcpLibrary.load] and [loadProjects] leave
    [isLoading] false on every exit, whatever the backend answered.  When
    the backend call is resolved, or rejected with a value that [String]
    can render, they follow the load policy from every prior state: they
    do not throw, and [error] is [null] after a success and the text of
    the failure after a failure.  [loadGlobalMcps] never throws and only
    prints a failure: it leaves [error] and [isLoading] as it found
    them. *)
Theorem load_failure_policy :
  (forall mb ms,
     McpLibrary.isLoading (snd (McpLibrary.load mb ms)) = false /\
     (renderable (McpLibrary.get_all_mcps mb) ->
      load_policy McpLibrary.isLoading McpLibrary.error
        (McpLibrary.get_all_mcps mb) (McpLibrary.load mb) ms)) /\
  (forall pb ps,
     Projects.isLoading (snd (Projects.loadProjects pb ps)) = false /\
     (renderable (Projects.get_all_projects pb) ->
      load_policy Projects.isLoading Projects.error
        (Projects.get_all_projects pb) (Projects.loadProjects pb) ps)) /\
  (forall pb ps,
     fst (Projects.loadGlobalMcps pb ps) = Resolved tt /\
     Projects.isLoading (snd (Projects.loadGlobalMcps pb ps))
       = Projects.isLoading ps /\
     Projects.error (snd (Projects.loadGlobalMcps pb ps))
       = Projects.error ps).
Proof.
  split; [|split].
  - intros mb ms. split; [|apply mcpLibrary_load_policy].
    rewrite mcpLibrary_load_runs.
    destruct (McpLibrary.get_all_mcps mb) as [l|e]; [reflexivity|].
    destruct (String_ e); reflexivity.
  - intros pb ps. split; [|apply loadProjects_policy].
    rewrite loadProjects_runs.
    destruct (Projects.get_all_projects pb) as [l|e]; [reflexivity|].
    destruct (String_ e); reflexivity.
  - apply loadGlobalMcps_frame.
Qed.
End LoadFacts.

(** C3, as first stated, fails for [loadGlobalMcps]: after a backend
    call rejected with a string the store's [error] is still [null]. *)
Lemma loadGlobalMcps_breaks_policy :
  ~ load_policy Projects.isLoading Projects.error
      (Projects.get_global_mcps failingGlobalMcps)
      (Projects.loadGlobalMcps failingGlobalMcps) emptyProjects.
Proof.
  unfold load_policy. simpl. intros (_ & _ & H).
  specialize (H _ eq_refl). discriminate H.
Qed.

(** ** The release-notification store *)

Section WhatsNewFacts.
Import WhatsNew.
Implicit Types (env : Env) (w : World) (v : string).

Lemma cons_v_neq v : String "v" v <> v.
Proof.
  induction v as [|c v IH]; [discriminate|].
  intros H. injection H as Hc Hv. subst c. exact (IH Hv).
Qed.

Lemma tagged_neq_untagged v : taggedUrl v <> untaggedUrl v.
Proof.
  intros H. cbv [taggedUrl untaggedUrl GITHUB_REPO String.append] in H.
  repeat match type of H with String _ _ = String _ _ =>
    injection H as H end.
  exact (cons_v_neq v H).
Qed.

(** On every path [fetchReleaseNotes] returns normally, through its
    [finally] block. *)
Lemma fetchReleaseNotes_total env v w :
  fst (fetchReleaseNotes env v w) = Resolved tt /\
  isLoading (store (snd (fetchReleaseNotes env v w))) = false.
Proof.
  unfold fetchReleaseNotes.
  rewrite !modify_then, try_finally_modify. cbn [fst snd]. split.
  - apply try_catch_total. intros e s'. reflexivity.
  - reflexivity.
Qed.

(** C2. [fetchReleaseNotes] never throws and returns with [isLoading]
    false.  When the tagged endpoint answers not-ok, exactly the tagged
    and then the untagged URL are requested, the untagged one once.  When
    the untagged endpoint answers not-ok too, [release] holds a record
    made of the requested version, the title "Version <version>", the
    generic body, the current time and the link of the releases page,
    and [error] holds the non-empty message "Release not found"; when
    the second request is rejected instead, [release] holds the same
    record and [error] the rejection's message. *)
Theorem fetchReleaseNotes_retry_then_fallback env v w :
  let w' := snd (fetchReleaseNotes env v w) in
  let synthesized :=
    mkRelease v ("Version " +:+ v)
      "You've been updated to the latest version! Check the GitHub releases page for details."
      (nowISO env)
      "https://github.com/tylergraydev/claude-code-tool-manager/releases" in
  fst (fetchReleaseNotes env v w) = Resolved tt /\
  isLoading (store w') = false /\
  forall r1, fetch env (taggedUrl v) = Resolved r1 -> ok r1 = false ->
    requests w' = requests w ++ [taggedUrl v; untaggedUrl v] /\
    count_occ string_dec [taggedUrl v; untaggedUrl v] (untaggedUrl v) = 1 /\
    (forall r2, fetch env (untaggedUrl v) = Resolved r2 -> ok r2 = false ->
       release (store w') = Some synthesized /\
       error (store w') = Some "Release not found" /\
       error (store w') <> Some "") /\
    (forall e, fetch env (untaggedUrl v) = Rejected e ->
       release (store w') = Some synthesized /\
       error (store w') =
         Some match e with
              | ErrorObj _ m => m
              | _ => "Failed to fetch release notes"
              end).
Proof.
  cbv zeta. destruct (fetchReleaseNotes_total env v w) as [Hret Hload].
  split; [exact Hret|]. split; [exact Hload|]. clear Hret Hload.
  unfold fetchReleaseNotes, doFetch. task_unfold. cbn.
  intros r1 Hr1 Hok1. rewrite Hr1. cbn. rewrite Hok1. cbn.
  split; [|split; [|split]].
  - destruct (fetch env (untaggedUrl v)) as [r2|e2]; cbn.
    + destruct (ok r2); cbn; [destruct (json r2)|]; cbn;
        rewrite <- app_assoc; reflexivity.
    + rewrite <- app_assoc; reflexivity.
  - cbn. destruct (string_dec (taggedUrl v) (untaggedUrl v)) as [E|_];
      [destruct (tagged_neq_untagged v E)|].
    destruct (string_dec (untaggedUrl v) (untaggedUrl v)); congruence.
  - intros r2 Hr2 Hok2. rewrite Hr2. cbn. rewrite Hok2. cbn.
    repeat split. discriminate.
  - intros e He. rewrite He. cbn. split; reflexivity.
Qed.

(** C7. With the current version [v] at hand: on a first run (no marker
    stored) [checkForWhatsNew] stores [v] as the marker and changes
    nothing else, so [isOpen] is not set and no URL is requested; when
    the stored marker is [v] the whole state is left as it was. *)
Theorem checkForWhatsNew_baseline env w v :
  getVersion env = Resolved v ->
  (localStorage w !! LAST_SEEN_VERSION_KEY = None ->
     checkForWhatsNew env w =
       (Resolved tt,
        mkWorld (store w) (<[LAST_SEEN_VERSION_KEY := v]> (localStorage w))
          (requests w))) /\
  (localStorage w !! LAST_SEEN_VERSION_KEY = Some v ->
     checkForWhatsNew env w = (Resolved tt, w)).
Proof.
  intros Hv. unfold checkForWhatsNew, getItem, setItem. task_unfold.
  rewrite Hv. cbn. split; intros Hm; rewrite Hm; cbn.
  - reflexivity.
  - destruct (String.eqb v "") eqn:E.
    + rewrite insert_id by exact Hm. destruct w; reflexivity.
    + rewrite bool_decide_eq_true_2 by reflexivity. reflexivity.
Qed.

(** C8. [dismiss] returns with [isOpen] false; when a release is held,
    the marker becomes that release's version, whatever the current
    application version is; with no release the storage is untouched. *)
Theorem dismiss_records_release_version w :
  fst (dismiss w) = Resolved tt /\
  isOpen (store (snd (dismiss w))) = false /\
  (forall r, release (store w) = Some r ->
     localStorage (snd (dismiss w)) !! LAST_SEEN_VERSION_KEY
       = Some (version r)) /\
  (release (store w) = None ->
     localStorage (snd (dismiss w)) = localStorage w).
Proof.
  unfold dismiss, setItem. task_unfold. cbn.
  destruct (release (store w)) as [r|] eqn:E; cbn; repeat split.
  - intros r' Hr'. injection Hr' as <-. apply lookup_insert_eq.
  - discriminate.
  - discriminate.
Qed.
End WhatsNewFacts.

(** ** Array.prototype.sort and the filtered view *)

Lemma StronglySorted_weaken {A : Type} (R R' : A -> A -> Prop) (l : list A) :
  (forall a b, R a b -> R' a b) -> StronglySorted R l -> StronglySorted R' l.
Proof.
  intros HRR'. induction 1 as [|x l Hl IH Hx]; constructor; [exact IH|].
  eapply Forall_impl; [exact Hx|]. intros y Hy. apply HRR'. exact Hy.
Qed.

Section SortFacts.
Context {A : Type} (cmp : A -> A -> Z).
Let R (a b : A) : Prop := (cmp a b <= 0)%Z.

Lemma insert_perm (x : A) (l : list A) :
  Permutation (JsArray.insert cmp x l) (x :: l).
Proof.
  induction l as [|y l IH]; simpl; [reflexivity|].
  destruct (cmp x y <=? 0)%Z; [reflexivity|].
  rewrite IH. apply perm_swap.
Qed.

Lemma sort_perm (l : list A) : Permutation (JsArray.sort cmp l) l.
Proof.
  induction l as [|x l IH]; simpl; [reflexivity|].
  unfold JsArray.sort in *. simpl. rewrite insert_perm, IH. reflexivity.
Qed.

Hypothesis cmp_total : forall a b, (cmp a b <= 0 \/ cmp b a <= 0)%Z.
Hypothesis cmp_trans :
  forall a b c, (cmp a b <= 0 -> cmp b c <= 0 -> cmp a c <= 0)%Z.

Lemma insert_HdRel (a x : A) (l : list A) :
  R a x -> HdRel R a l -> HdRel R a (JsArray.insert cmp x l).
Proof.
  intros Hax Hl. destruct l as [|y l]; simpl; [constructor; exact Hax|].
  destruct (cmp x y <=? 0)%Z; constructor; [exact Hax|].
  inversion Hl; assumption.
Qed.

Lemma insert_sorted (x : A) (l : list A) :
  Sorted R l -> Sorted R (JsArray.insert cmp x l).
Proof.
  induction 1 as [|y l Hl IH Hy]; simpl.
  - repeat constructor.
  - destruct (Z.leb_spec (cmp x y) 0) as [Hle|Hgt].
    + constructor; [constructor; assumption|]. constructor. exact Hle.
    + constructor; [exact IH|]. apply insert_HdRel; [|exact Hy].
      destruct (cmp_total y x) as [H|H]; [exact H|]. unfold R. lia.
Qed.

Lemma sort_sorted (l : list A) : StronglySorted R (JsArray.sort cmp l).
Proof.
  apply Sorted_StronglySorted.
  - intros a b c. apply cmp_trans.
  - induction l as [|x l IH]; [constructor|].
    unfold JsArray.sort in *. simpl. apply insert_sorted. exact IH.
Qed.
End SortFacts.

Section IncludesFacts.
Import JsRegExp.

Lemma starts_with_spec (s sub : list ascii) :
  starts_with s sub = true <-> exists t, s = sub ++ t.
Proof.
  revert s; induction sub as [|c sub IH]; intros s; simpl.
  - split; [eauto|reflexivity].
  - destruct s as [|d s].
    + split; [discriminate|]. intros [t Ht]. discriminate Ht.
    + rewrite andb_true_iff, IH. split.
      * intros [Hc [t ->]]. apply Ascii.eqb_eq in Hc. subst d. eauto.
      * intros [t Ht]. injection Ht as -> ->.
        split; [apply Ascii.eqb_refl | eauto].
Qed.

(** [includes] is the substring test. *)
Lemma includes_list_spec (s sub : list ascii) :
  includes_list s sub = true <-> exists a b, s = a ++ sub ++ b.
Proof.
  induction s as [|d s IH]; simpl; rewrite orb_true_iff, starts_with_spec.
  - split.
    + intros [[t Ht]|H]; [|discriminate]. exists [], t. exact Ht.
    + intros ([|x a] & b & H); [left; eauto | discriminate].
  - rewrite IH. split.
    + intros [[t Ht]|(a & b & Hab)].
      * exists [], t. exact Ht.
      * exists (d :: a), b. simpl. congruence.
    + intros ([|x a] & b & H).
      * left. eauto.
      * right. injection H as -> ->. eauto.
Qed.
End IncludesFacts.

Section FilteredFacts.
Import McpLibrary.
Context {Rest : Type}.
Context (toLowerCase : string -> string).
Context (localeCompare : string -> string -> Z).
Implicit Types (s : McpLibrary.McpLibraryState Rest)
  (m a b : McpLibrary.Mcp Rest).

Lemma filteredMcps_unfold s :
  filteredMcps toLowerCase localeCompare s =
    JsArray.sort (compareMcps localeCompare)
      (List.filter (selectedBy toLowerCase (searchQuery s) (selectedType s))
         (mcps s)).
Proof.
  unfold filteredMcps, selectedBy. f_equal.
  destruct (String.eqb (searchQuery s) "") eqn:Eq; simpl;
    destruct (selectedType s) as [|t]; simpl.
  - symmetry. apply filter_unchanged. apply Forall_forall. auto.
  - apply filter_ext. intros m. reflexivity.
  - apply filter_ext. intros m. unfold matchesQuery.
    rewrite andb_true_r. reflexivity.
  - induction (mcps s) as [|m l IH]; simpl; [reflexivity|].
    unfold matchesQuery at 1.
    destruct (_ || _ || _); simpl; [|exact IH].
    destruct (typeIs (type m) t); simpl; [f_equal|]; exact IH.
Qed.

Lemma compareMcps_order a b :
  (compareMcps localeCompare a b <= 0)%Z
  <-> favoritesThenName localeCompare a b.
Proof.
  unfold compareMcps, favoritesThenName.
  destruct (isFavorite a), (isFavorite b); simpl; split; intros H;
    try lia; intuition (try discriminate; try lia).
Qed.

Hypothesis localeCompare_total :
  forall x y, (localeCompare x y <= 0 \/ localeCompare y x <= 0)%Z.
Hypothesis localeCompare_trans :
  forall x y z, (localeCompare x y <= 0 -> localeCompare y z <= 0 ->
                 localeCompare x z <= 0)%Z.

(** C6. For a [localeCompare] that is a consistent comparator (total and
    transitive), [filteredMcps] holds exactly the selected entities of
    the cache, each as often as the cache does, and is sorted favourites
    first, then by [localeCompare] of the names. *)
Theorem filteredMcps_selects_and_sorts s :
  Permutation (filteredMcps toLowerCase localeCompare s)
    (List.filter (selectedBy toLowerCase (searchQuery s) (selectedType s))
       (mcps s)) /\
  (forall m, In m (filteredMcps toLowerCase localeCompare s) <->
     In m (mcps s) /\
     selectedBy toLowerCase (searchQuery s) (selectedType s) m = true) /\
  StronglySorted (favoritesThenName localeCompare)
    (filteredMcps toLowerCase localeCompare s).
Proof.
  rewrite filteredMcps_unfold.
  assert (Hperm := sort_perm (compareMcps localeCompare)
    (List.filter (selectedBy toLowerCase (searchQuery s) (selectedType s))
       (mcps s))).
  split; [exact Hperm|]. split.
  - intros m. rewrite <- filter_In. split; intros H.
    + eapply Permutation_in; [exact Hperm | exact H].
    + eapply Permutation_in; [symmetry; exact Hperm | exact H].
  - eapply StronglySorted_weaken;
      [| apply (sort_sorted (compareMcps localeCompare))].
    + intros a b Hab. apply compareMcps_order. exact Hab.
    + intros a b. unfold compareMcps.
      destruct (isFavorite a), (isFavorite b); simpl; try lia.
      all: apply localeCompare_total.
    + intros a b c. unfold compareMcps.
      destruct (isFavorite a), (isFavorite b), (isFavorite c); simpl;
        try lia; apply localeCompare_trans.
Qed.
End FilteredFacts.

(** ** The regular-expression engine *)

Section EngineFacts.
Import JsRegExp.

Lemma exec_starts_with_chr multiline c r :
  starts_with_chr c r = true ->
  forall st k, (forall tl, rest st <> c :: tl) ->
    exec multiline r st k = None.
Proof.
  induction r; simpl; try discriminate; intros Hr st k Hst.
  - apply Ascii.eqb_eq in Hr. subst c0. unfold step_char.
    destruct (rest st) as [|d tl] eqn:E; [reflexivity|].
    destruct (Ascii.eqb_spec c d) as [->|_]; [|reflexivity].
    destruct (Hst tl). reflexivity.
  - apply IHr1; assumption.
  - apply IHr; assumption.
Qed.

(** Where no position admits a match, [replace] returns its input. *)
Lemma replace_from_no_match (P : list ascii -> Prop) multiline global r f :
  (forall prev s, P s -> match_at multiline r prev s = None) ->
  (forall c s, P (c :: s) -> P s) ->
  forall fuel prev s, P s ->
    replace_from fuel multiline global r f prev s = s.
Proof.
  intros Hnone Htl. induction fuel as [|fuel IH]; intros prev s Hs; simpl.
  - reflexivity.
  - rewrite (Hnone prev s Hs). destruct s as [|c s]; [reflexivity|].
    rewrite (IH (Some c) s (Htl c s Hs)). reflexivity.
Qed.

Lemma replace_absent_chr multiline global r tpl (c : ascii) (s : string) :
  starts_with_chr c r = true ->
  Forall (fun d => d <> c) (list_ascii_of_string s) ->
  replace multiline global r tpl s = s.
Proof.
  intros Hr Hs. unfold replace, replace_with, replace_list.
  rewrite (replace_from_no_match (Forall (fun d => d <> c))).
  - apply string_of_list_ascii_of_string.
  - intros prev l Hl. apply (exec_starts_with_chr _ c); [exact Hr|].
    simpl. intros tl ->. inversion Hl; congruence.
  - intros d l Hl. inversion Hl; assumption.
  - exact Hs.
Qed.

(** *** Characters of the output come from the input and the template *)

Context (P : ascii -> Prop).
Lemma caps_in_filter (g : nat * list ascii -> bool) cs :
  caps_in P cs -> caps_in P (List.filter g cs).
Proof.
  unfold caps_in. induction 1 as [|p cs Hp _ IH]; simpl; [constructor|].
  destruct (g p); [constructor|]; assumption.
Qed.

Lemma Forall_firstn_in (n : nat) (l : list ascii) :
  Forall P l -> Forall P (firstn n l).
Proof.
  intros H. revert n. induction H as [|x l Hx _ IH]; intros [|n]; simpl;
    constructor; auto.
Qed.

Lemma star_loop_state_in greedy gs body k :
  (forall st k res, state_in P st -> body st k = Some res ->
     exists st', state_in P st' /\ k st' = Some res) ->
  forall n st res, state_in P st ->
    star_loop greedy gs body k n st = Some res ->
    exists st', state_in P st' /\ k st' = Some res.
Proof.
  intros Hbody. induction n as [|n IHn]; intros st res Hst; simpl;
    [eauto|].
  assert (Hagain : forall x,
    body (clear_caps gs st)
      (fun st' => if (length (rest st') <? length (rest st))%nat
                  then star_loop greedy gs body k n st' else None)
      = Some x ->
    exists st', state_in P st' /\ k st' = Some x).
  { intros x Hx.
    assert (Hc : state_in P (clear_caps gs st)).
    { destruct Hst as [Hr Hc]. split; simpl;
        [exact Hr | apply caps_in_filter; exact Hc]. }
    destruct (Hbody _ _ _ Hc Hx) as (st1 & Hst1 & H1).
    destruct (length (rest st1) <? length (rest st))%nat; [|discriminate].
    exact (IHn st1 x Hst1 H1). }
  unfold orelse. destruct greedy.
  - destruct (body _ _) as [x|] eqn:E.
    + intros [= <-]. apply Hagain. reflexivity.
    + eauto.
  - destruct (k st) as [x|] eqn:E.
    + intros [= <-]. eauto.
    + apply Hagain.
Qed.

Lemma exec_state_in multiline r :
  forall st k res, state_in P st -> exec multiline r st k = Some res ->
    exists st', state_in P st' /\ k st' = Some res.
Proof.
  induction r as [| c | p | | | r1 IH1 r2 IH2 | r1 IH1 r2 IH2
                  | greedy r1 IH1 | i r1 IH1];
    intros st k res Hst; simpl.
  - eauto.
  - unfold step_char. destruct Hst as [Hrest Hcaps].
    destruct (rest st) as [|d tl]; [discriminate|].
    destruct (Ascii.eqb c d); [|discriminate].
    intros Hk. eexists; split; [|exact Hk].
    split; simpl; [inversion Hrest|]; assumption.
  - unfold step_char. destruct Hst as [Hrest Hcaps].
    destruct (rest st) as [|d tl]; [discriminate|].
    destruct (p d); [|discriminate].
    intros Hk. eexists; split; [|exact Hk].
    split; simpl; [inversion Hrest|]; assumption.
  - destruct (at_bol multiline st); [eauto | discriminate].
  - destruct (at_eol multiline st); [eauto | discriminate].
  - intros H. destruct (IH1 _ _ _ Hst H) as (st1 & Hst1 & H1).
    exact (IH2 _ _ _ Hst1 H1).
  - unfold orelse.
    destruct (exec multiline r1 st k) as [x|] eqn:E.
    + intros [= <-]. exact (IH1 _ _ _ Hst E).
    + intros H. exact (IH2 _ _ _ Hst H).
  - apply star_loop_state_in; [exact IH1 | exact Hst].
  - intros H. destruct (IH1 _ _ _ Hst H) as (st1 & Hst1 & H1).
    eexists; split; [|exact H1]. destruct Hst1 as [Hr1 Hc1].
    split; simpl; [exact Hr1|].
    constructor; simpl.
    + apply Forall_firstn_in. exact (proj1 Hst).
    + apply caps_in_filter. exact Hc1.
Qed.

Lemma replace_from_in multiline global r (f : replacer) :
  (forall matched cs, Forall P matched -> caps_in P cs ->
     Forall P (f matched cs)) ->
  forall fuel prev s, Forall P s ->
    Forall P (replace_from fuel multiline global r f prev s).
Proof.
  intros Hf. induction fuel as [|fuel IH]; intros prev s Hs; simpl;
    [exact Hs|].
  assert (Htl : forall c tl, s = c :: tl ->
    Forall P (c :: replace_from fuel multiline global r f (Some c) tl)).
  { intros c tl ->. inversion Hs; subst. constructor; auto. }
  destruct (match_at multiline r prev s) as [st'|] eqn:E.
  - unfold match_at in E.
    assert (H0 : state_in P (MState prev s [])).
    { split; simpl; [exact Hs | constructor]. }
    destruct (exec_state_in _ _ _ _ _ H0 E) as (st1 & [Hr1 Hc1] & [= ->]).
    apply Forall_app. split.
    + apply Hf; [apply Forall_firstn_in; exact Hs | exact Hc1].
    + destruct global; [|exact Hr1].
      destruct (firstn (length s - length (rest st')) s).
      * destruct s as [|c tl]; [constructor | eauto].
      * apply IH. exact Hr1.
  - destruct s as [|c tl]; [constructor | eauto].
Qed.

Lemma subst_in tpl matched cs :
  Forall (piece_in P) tpl -> Forall P matched -> caps_in P cs ->
  Forall P (subst tpl matched cs).
Proof.
  intros Htpl Hm Hcs. unfold subst.
  induction Htpl as [|p tpl Hp _ IH]; simpl; [constructor|].
  apply Forall_app. split; [|exact IH].
  destruct p as [t|i|]; simpl in *; auto.
  unfold get_cap.
  destruct (List.find (fun q => Nat.eqb (fst q) i) cs) as [q|] eqn:E;
    [|constructor].
  apply find_some in E. destruct E as [Hin _].
  unfold caps_in in Hcs. rewrite Forall_forall in Hcs.
  apply Hcs. apply list_elem_of_In. exact Hin.
Qed.

Lemma replace_in multiline global r tpl (s : string) :
  Forall (piece_in P) tpl ->
  Forall P (list_ascii_of_string s) ->
  Forall P (list_ascii_of_string (replace multiline global r tpl s)).
Proof.
  intros Htpl Hs. unfold replace, replace_with, replace_list.
  rewrite list_ascii_of_string_of_list_ascii.
  apply replace_from_in; [|exact Hs].
  intros matched cs. apply subst_in. exact Htpl.
Qed.
End EngineFacts.

(** ** renderMarkdown *)

Section MarkdownFacts.
Import JsRegExp Markdown.

Abbreviation on_line := (fun c : ascii => is_line_terminator c = false).

Lemma clear_no_caps (st : mstate) : clear_caps [] st = st.
Proof.
  destruct st as [b r cs]. unfold clear_caps. simpl. f_equal.
  induction cs as [|p cs IH]; simpl; congruence.
Qed.

Lemma step_char_cons p b c tl cs k :
  step_char p (MState b (c :: tl) cs) k =
    if p c then k (MState (Some c) tl cs) else None.
Proof. reflexivity. Qed.

Lemma step_char_nil p b cs k : step_char p (MState b [] cs) k = None.
Proof. reflexivity. Qed.

Abbreviation one_dot := (step_char (fun c => negb (is_line_terminator c))).

(** The iterations of [.+] and [.+?] after the first character: a
    match goes through a stretch of one line and then through the
    continuation. *)
Lemma dots_sound greedy (k : mstate -> option mstate) :
  forall n st res,
    star_loop greedy [] one_dot k n st = Some res ->
    exists cap tl prev,
      rest st = cap ++ tl /\ Forall on_line cap /\
      k (MState prev tl (caps st)) = Some res.
Proof.
  induction n as [|n IH]; intros st res; simpl.
  - intros H. exists [], (rest st), (before st). destruct st; auto.
  - assert (Hk : k st = Some res ->
      exists cap tl prev, rest st = cap ++ tl /\ Forall on_line cap /\
        k (MState prev tl (caps st)) = Some res).
    { intros H. exists [], (rest st), (before st). destruct st; auto. }
    assert (Hagain :
      one_dot (clear_caps [] st)
        (fun st' => if (length (rest st') <? length (rest st))%nat
                    then star_loop greedy [] one_dot k n st' else None)
        = Some res ->
      exists cap tl prev, rest st = cap ++ tl /\ Forall on_line cap /\
        k (MState prev tl (caps st)) = Some res).
    { rewrite clear_no_caps. destruct st as [b [|c tl] cs];
        [rewrite step_char_nil; discriminate|].
      rewrite step_char_cons.
      destruct (negb (is_line_terminator c)) eqn:Ec; [|discriminate].
      cbn [rest]. destruct (length tl <? length (c :: tl))%nat;
        [|discriminate].
      intros H. destruct (IH _ _ H) as (cap & tl' & prev & H1 & H2 & H3).
      cbn [rest caps] in *. exists (c :: cap), tl', prev. subst tl.
      split; [reflexivity|]. split; [|exact H3].
      constructor; [|exact H2]. apply negb_true_iff in Ec. exact Ec. }
    unfold orelse. destruct greedy.
    + destruct (one_dot _ _) as [x|] eqn:E; [|exact Hk].
      intros [= <-]. apply Hagain. reflexivity.
    + destruct (k st) as [x|] eqn:E; [|exact Hagain].
      intros [= <-]. apply Hk. reflexivity.
Qed.

Lemma closes_after_line (cap tl : list ascii) :
  Forall on_line cap -> closes (cap ++ "*"%char :: tl) = true.
Proof.
  induction 1 as [|c cap Hc _ IH]; simpl; [reflexivity|].
  rewrite Hc, IH. simpl. apply orb_true_r.
Qed.

Ltac eat_chr s c tl :=
  destruct s as [|c tl]; [rewrite step_char_nil; discriminate|];
  rewrite step_char_cons.

(** A match of the italic pattern starts at an asterisk that opens. *)
Lemma italic_match_opens prev s res :
  match_at false re_italic prev s = Some res ->
  exists tl, s = "*"%char :: tl /\ opens tl = true.
Proof.
  unfold match_at, re_italic, plus, dot. cbn [exec groups_of].
  eat_chr s c0 s1.
  destruct (Ascii.eqb_spec "*" c0) as [<-|_]; [|discriminate].
  eat_chr s1 c s2.
  destruct (negb (is_line_terminator c)) eqn:Ec; [|discriminate].
  cbn [rest]. intros H. apply dots_sound in H.
  destruct H as (cap & tl & p & H1 & H2 & H3). cbn [rest caps before] in *.
  revert H3. eat_chr tl d tl'.
  destruct (Ascii.eqb_spec "*" d) as [<-|_]; [|discriminate]. intros _.
  exists (c :: s2). split; [reflexivity|]. simpl. rewrite Ec. simpl.
  subst s2. apply closes_after_line. exact H2.
Qed.

(** So does a match of the bold pattern. *)
Lemma bold_match_opens prev s res :
  match_at false re_bold prev s = Some res ->
  exists tl, s = "*"%char :: tl /\ opens tl = true.
Proof.
  unfold match_at, re_bold, plus, lit, dot.
  cbn [list_ascii_of_string lit_list exec groups_of].
  eat_chr s c0 s1.
  destruct (Ascii.eqb_spec "*" c0) as [<-|_]; [|discriminate].
  eat_chr s1 c1 s2.
  destruct (Ascii.eqb_spec "*" c1) as [<-|_]; [|discriminate].
  eat_chr s2 c s3.
  destruct (negb (is_line_terminator c)) eqn:Ec; [|discriminate].
  cbn [rest]. intros H. apply dots_sound in H.
  destruct H as (cap & tl & p & H1 & H2 & H3). cbn [rest caps before] in *.
  revert H3. eat_chr tl d tl'.
  destruct (Ascii.eqb_spec "*" d) as [<-|_]; [|discriminate]. intros _.
  exists ("*"%char :: c :: s3). split; [reflexivity|].
  subst s3. apply negb_true_iff in Ec.
  change (closes ((c :: cap) ++ "*"%char :: tl') = true).
  apply closes_after_line. constructor; assumption.
Qed.

(** Conversely the lazy iterations find the asterisk that closes the
    line, given a continuation that accepts an asterisk. *)
Lemma lazy_dots_complete (k : mstate -> option mstate) :
  (forall st, (exists tl, rest st = "*"%char :: tl) -> k st <> None) ->
  forall s n b cs, closes s = true -> (length s <= n)%nat ->
    star_loop false [] one_dot k n (MState b s cs) <> None.
Proof.
  intros Hk. induction s as [|c tl IH]; intros n b cs Hs Hn;
    [discriminate|].
  destruct n as [|n]; [simpl in Hn; lia|]. simpl in Hn.
  cbn [star_loop]. unfold orelse.
  destruct (k (MState b (c :: tl) cs)) as [x|] eqn:Ek; [discriminate|].
  rewrite clear_no_caps, step_char_cons. cbn [rest].
  simpl in Hs. destruct (Ascii.eqb_spec c "*") as [->|_].
  - destruct (Hk (MState b ("*"%char :: tl) cs)); [eexists; reflexivity|].
    exact Ek.
  - simpl in Hs. apply andb_true_iff in Hs. destruct Hs as [Hc Htl].
    rewrite Hc.
    replace (length tl <? length (c :: tl))%nat with true
      by (symmetry; apply Nat.ltb_lt; simpl; lia).
    apply IH; [exact Htl | lia].
Qed.

(** The italic pattern matches at every asterisk that opens. *)
Lemma opens_italic_match prev tl :
  opens tl = true ->
  match_at false re_italic prev ("*"%char :: tl) <> None.
Proof.
  intros H. unfold match_at, re_italic, plus, dot. cbn [exec groups_of].
  rewrite step_char_cons. cbn [Ascii.eqb Bool.eqb].
  destruct tl as [|c s2]; [discriminate|]. simpl in H.
  apply andb_true_iff in H. destruct H as [Hc Hs].
  rewrite step_char_cons, Hc. cbn [rest].
  apply lazy_dots_complete; [|exact Hs | lia].
  intros st [tl' Htl']. destruct st as [b r cs]. cbn [rest before caps] in *.
  subst r. rewrite step_char_cons. discriminate.
Qed.

Lemma emphasisFree_tail c s :
  emphasisFree_list (c :: s) = true -> emphasisFree_list s = true.
Proof. simpl. intros H. apply andb_true_iff in H. tauto. Qed.

Lemma emphasisFree_no_match r :
  (forall prev s res, match_at false r prev s = Some res ->
     exists tl, s = "*"%char :: tl /\ opens tl = true) ->
  forall prev s, emphasisFree_list s = true ->
    match_at false r prev s = None.
Proof.
  intros Hr prev s Hs.
  destruct (match_at false r prev s) as [res|] eqn:E; [|reflexivity].
  destruct (Hr _ _ _ E) as (tl & -> & Ho). simpl in Hs. rewrite Ho in Hs.
  discriminate.
Qed.

(** An emphasis rule leaves a text without marker pairs as it is. *)
Lemma emphasisFree_unchanged r tpl (text : string) :
  (forall prev s res, match_at false r prev s = Some res ->
     exists tl, s = "*"%char :: tl /\ opens tl = true) ->
  emphasisFree text = true ->
  replace false true r tpl text = text.
Proof.
  intros Hr H. unfold replace, replace_with, replace_list.
  rewrite (replace_from_no_match (fun s => emphasisFree_list s = true)).
  - apply string_of_list_ascii_of_string.
  - apply emphasisFree_no_match. exact Hr.
  - apply emphasisFree_tail.
  - exact H.
Qed.

(** A replacement that starts with [<] makes the output differ from the
    input where the first match starts. *)
Lemma replace_from_diverges r (f : replacer) :
  (forall prev s res, match_at false r prev s = Some res ->
     exists tl, s = "*"%char :: tl /\ opens tl = true) ->
  (forall matched cs, exists y, f matched cs = "<"%char :: y) ->
  forall fuel prev s,
    replace_from fuel false true r f prev s = s \/
    exists a x y, s = a ++ "*"%char :: x /\
      replace_from fuel false true r f prev s = a ++ "<"%char :: y.
Proof.
  intros Hr Hf. induction fuel as [|fuel IH]; intros prev s;
    [left; reflexivity|].
  cbn [replace_from].
  destruct (match_at false r prev s) as [st'|] eqn:E.
  - destruct (Hr _ _ _ E) as (tl & -> & _).
    destruct (Hf (firstn (length ("*"%char :: tl) - length (rest st'))
                    ("*"%char :: tl)) (caps st')) as [y ->].
    right. exists [], tl. eexists. split; reflexivity.
  - destruct s as [|c tl]; [left; reflexivity|].
    destruct (IH (Some c) tl) as [->|(a & x & y & -> & ->)];
      [left; reflexivity|].
    right. exists (c :: a), x, y. split; reflexivity.
Qed.

(** Such a first difference survives a later emphasis rule. *)
Lemma replace_from_keeps_difference r (f : replacer) :
  (forall prev s res, match_at false r prev s = Some res ->
     exists tl, s = "*"%char :: tl /\ opens tl = true) ->
  (forall matched cs, exists y, f matched cs = "<"%char :: y) ->
  forall a fuel prev x y,
    replace_from fuel false true r f prev (a ++ "<"%char :: y)
      <> a ++ "*"%char :: x.
Proof.
  intros Hr Hf. induction a as [|c a IH]; intros fuel prev x y;
    (destruct fuel as [|fuel];
     [simpl; intros H;
      first [discriminate H
            | injection H as H; apply app_inv_head in H; discriminate H]|]);
    cbn [replace_from app].
  - destruct (match_at false r prev ("<"%char :: y)) as [st'|] eqn:E.
    + destruct (Hr _ _ _ E) as (tl & [=] & _).
    + discriminate.
  - destruct (match_at false r prev (c :: a ++ "<"%char :: y))
      as [st'|] eqn:E.
    + destruct (Hr _ _ _ E) as (tl & [= -> Htl] & _).
      match goal with |- context [f ?m ?cs] =>
        destruct (Hf m cs) as [z ->] end.
      discriminate.
    + intros [= H]. exact (IH _ _ _ _ H).
Qed.

(** The italic rule rewrites every text that holds a marker pair. *)
Lemma italic_list_changes (f : replacer) :
  (forall matched cs, exists y, f matched cs = "<"%char :: y) ->
  forall s fuel prev, emphasisFree_list s = false ->
    (length s < fuel)%nat ->
    replace_from fuel false true re_italic f prev s <> s.
Proof.
  intros Hf. induction s as [|c tl IH]; intros fuel prev Hs Hfuel;
    [discriminate|].
  destruct fuel as [|fuel]; [lia|]. simpl in Hfuel. cbn [replace_from].
  destruct (match_at false re_italic prev (c :: tl)) as [st'|] eqn:E.
  - destruct (italic_match_opens _ _ _ E) as (tl' & [= -> ->] & _).
    match goal with |- context [f ?m ?cs] =>
      destruct (Hf m cs) as [z ->] end.
    discriminate.
  - intros [= H]. simpl in Hs. apply andb_false_iff in Hs.
    destruct Hs as [Hs|Hs].
    + apply negb_false_iff, andb_true_iff in Hs. destruct Hs as [Hc Ho].
      apply Ascii.eqb_eq in Hc. subst c.
      exact (opens_italic_match prev tl Ho E).
    + exact (IH fuel (Some c) Hs ltac:(lia) H).
Qed.

Lemma list_ascii_of_string_append (a b : string) :
  list_ascii_of_string (a +:+ b)
    = list_ascii_of_string a ++ list_ascii_of_string b.
Proof.
  induction a as [|c a IH]; [reflexivity|].
  change (String c a +:+ b) with (String c (a +:+ b)). simpl.
  rewrite IH. reflexivity.
Qed.

(** Text without asterisks after a line neither closes nor opens a
    pair. *)
Lemma closes_plain (z : list ascii) :
  Forall (fun d => d <> asterisk) z -> closes z = false.
Proof.
  induction 1 as [|c z Hc _ IH]; simpl; [reflexivity|].
  rewrite IH, andb_false_r, orb_false_r. apply Ascii.eqb_neq. exact Hc.
Qed.

Lemma closes_app_plain (s z : list ascii) :
  Forall (fun d => d <> asterisk) z -> closes (s ++ z) = closes s.
Proof.
  intros Hz. induction s as [|c s IH]; simpl;
    [apply closes_plain; exact Hz | rewrite IH; reflexivity].
Qed.

Lemma opens_app_plain (s z : list ascii) :
  Forall (fun d => d <> asterisk) z -> opens (s ++ z) = opens s.
Proof.
  intros Hz. destruct s as [|c s]; simpl.
  - destruct Hz as [|d z Hd Hz]; simpl; [reflexivity|].
    rewrite (closes_plain z Hz). apply andb_false_r.
  - rewrite (closes_app_plain s z Hz). reflexivity.
Qed.

Lemma emphasisFree_app_plain (s z : list ascii) :
  Forall (fun d => d <> asterisk) z ->
  emphasisFree_list (s ++ z) = emphasisFree_list s.
Proof.
  intros Hz. induction s as [|c s IH]; cbn [app emphasisFree_list].
  - induction Hz as [|d z Hd _ IHz]; cbn [emphasisFree_list];
      [reflexivity|].
    rewrite IHz. apply Ascii.eqb_neq in Hd. unfold asterisk in Hd.
    rewrite Hd. reflexivity.
  - rewrite IH, (opens_app_plain s z Hz). reflexivity.
Qed.

(** The fence marks add no marker pair to the code they enclose. *)
Lemma emphasisFree_fenced (code : string) :
  emphasisFree (fenced code) = emphasisFree code.
Proof.
  unfold emphasisFree, fenced.
  rewrite !list_ascii_of_string_append.
  change (list_ascii_of_string "```") with ["`"; "`"; "`"]%char.
  cbn [app emphasisFree_list Ascii.eqb Bool.eqb andb negb].
  apply emphasisFree_app_plain. repeat constructor; discriminate.
Qed.

Lemma bold_template matched cs :
  exists y,
    subst [Txt ("<strong class=" +:+ q "font-semibold" +:+ ">"); Ref 1;
           Txt "</strong>"] matched cs = "<"%char :: y.
Proof. eexists. reflexivity. Qed.

Lemma italic_template matched cs :
  exists y, subst [Txt "<em>"; Ref 1; Txt "</em>"] matched cs = "<"%char :: y.
Proof. eexists. reflexivity. Qed.

(** The two emphasis rules in sequence leave a text as it is only if it
    holds no marker pair. *)
Lemma emphasis_changes (text : string) :
  emphasisFree text = false -> italic (bold text) <> text.
Proof.
  intros Hfree H. unfold italic, bold, replace, replace_with in H.
  rewrite list_ascii_of_string_of_list_ascii in H.
  apply (f_equal list_ascii_of_string) in H.
  rewrite list_ascii_of_string_of_list_ascii in H.
  unfold emphasisFree in Hfree. unfold replace_list in H.
  remember (list_ascii_of_string text) as l eqn:El. clear El text.
  destruct (replace_from_diverges re_bold _ bold_match_opens bold_template
              (S (length l)) None l) as [Heq|(a & x & y & Hl & Hout)].
  - rewrite Heq in H. revert H.
    apply italic_list_changes;
      [exact italic_template | exact Hfree | lia].
  - rewrite Hout in H. rewrite Hl in H.
    exact (replace_from_keeps_difference re_italic _ italic_match_opens
             italic_template _ _ _ _ _ H).
Qed.

(** A literal consumes itself. *)
Lemma lit_list_sound multiline (p : list ascii) :
  p <> [] ->
  forall st k res, exec multiline (lit_list p) st k = Some res ->
    exists tl prev, rest st = p ++ tl /\
      k (MState prev tl (caps st)) = Some res.
Proof.
  induction p as [|c p IH]; [congruence|]. intros _ st k res.
  destruct p as [|d p].
  - cbn [lit_list exec]. destruct st as [b [|c0 tl] cs];
      [rewrite step_char_nil; discriminate|].
    rewrite step_char_cons. destruct (Ascii.eqb_spec c c0) as [<-|_];
      [|discriminate].
    intros H. exists tl, (Some c). auto.
  - change (lit_list (c :: d :: p)) with (Seq (Chr c) (lit_list (d :: p))).
    cbn [exec]. destruct st as [b [|c0 tl] cs];
      [rewrite step_char_nil; discriminate|].
    rewrite step_char_cons. destruct (Ascii.eqb_spec c c0) as [<-|_];
      [|discriminate].
    intros H. apply IH in H; [|discriminate].
    destruct H as (tl' & prev & H1 & H2). cbn [rest caps] in *. subst tl.
    exists tl', prev. auto.
Qed.

(** A match of a header pattern is a whole line: the marker, then the
    captured rest of the line. *)
Lemma header_match (hashes : string) prev s st' :
  match_at true (re_header hashes) prev s = Some st' ->
  exists content,
    s = list_ascii_of_string (hashes +:+ " ") ++ content ++ rest st' /\
    Forall on_line content /\ line_end (rest st') /\
    caps st' = [(1%nat, content)].
Proof.
  unfold match_at, re_header, plus, dot, lit. cbn [exec groups_of].
  destruct (at_bol true _); [|discriminate].
  intros H. apply lit_list_sound in H.
  2:{ destruct hashes; discriminate. }
  destruct H as (s1 & p1 & Hs & H). cbn [rest caps] in *. subst s.
  revert H. destruct s1 as [|c s2]; [rewrite step_char_nil; discriminate|].
  rewrite step_char_cons.
  destruct (negb (is_line_terminator c)) eqn:Ec; [|discriminate].
  cbn [rest]. intros H. apply dots_sound in H.
  destruct H as (cap & tl & p & H1 & H2 & H3). cbn [rest caps before] in *.
  subst s2. unfold at_eol in H3. cbn [rest] in H3.
  exists (c :: cap).
  assert (Hcons : consumed (MState p1 (c :: cap ++ tl) []) (MState p tl [])
                  = c :: cap).
  { unfold consumed. cbn [rest].
    replace (length (c :: cap ++ tl) - length tl)%nat
      with (length (c :: cap)) by (simpl; rewrite length_app; lia).
    change (c :: cap ++ tl) with ((c :: cap) ++ tl).
    apply (take_app_length (c :: cap) tl). }
  apply negb_true_iff in Ec.
  destruct tl as [|d tl].
  - injection H3 as <-. cbn [rest caps]. rewrite Hcons.
    repeat split; auto.
  - cbn [andb] in H3. destruct (is_line_terminator d) eqn:Ed; [|discriminate].
    injection H3 as <-. cbn [rest caps]. rewrite Hcons.
    repeat split; auto.
Qed.

(** *** Marker pairs are a matter of single lines *)

Lemma closes_line_end (T : list ascii) : line_end T -> closes T = false.
Proof.
  destruct T as [|c T]; cbn [closes line_end]; [reflexivity|]. intros H.
  rewrite H, andb_false_l, orb_false_r.
  destruct (Ascii.eqb_spec c "*") as [->|_]; [discriminate H | reflexivity].
Qed.

Lemma opens_line_end (T : list ascii) : line_end T -> opens T = false.
Proof. destruct T as [|c T]; simpl; [reflexivity|]. intros ->. reflexivity. Qed.

Lemma closes_no_asterisk (z T : list ascii) :
  Forall (fun d => d <> asterisk) z -> closes T = false ->
  closes (z ++ T) = false.
Proof.
  intros Hz HT. induction Hz as [|d z Hd _ IH]; [exact HT|].
  cbn [app closes]. rewrite IH, andb_false_r, orb_false_r.
  apply Ascii.eqb_neq. exact Hd.
Qed.

Lemma opens_no_asterisk (z T : list ascii) :
  Forall (fun d => d <> asterisk) z -> closes T = false -> opens T = false ->
  opens (z ++ T) = false.
Proof.
  intros Hz HT HT'. destruct Hz as [|d z Hd Hz]; [exact HT'|].
  cbn [app opens]. rewrite (closes_no_asterisk z T Hz HT).
  apply andb_false_r.
Qed.

(** Inserting text without asterisks at the end of a line changes
    nothing for the characters before it. *)
Lemma closes_insert (l z T : list ascii) :
  Forall (fun d => d <> asterisk) z -> line_end T ->
  closes (l ++ z ++ T) = closes l.
Proof.
  intros Hz HT. induction l as [|c l IH]; cbn [app closes].
  - apply closes_no_asterisk; [exact Hz | apply closes_line_end; exact HT].
  - rewrite IH. reflexivity.
Qed.

Lemma opens_insert (l z T : list ascii) :
  Forall (fun d => d <> asterisk) z -> line_end T ->
  opens (l ++ z ++ T) = opens l.
Proof.
  intros Hz HT. destruct l as [|c l]; cbn [app opens].
  - apply opens_no_asterisk;
      [exact Hz | apply closes_line_end | apply opens_line_end]; exact HT.
  - rewrite closes_insert by assumption. reflexivity.
Qed.

Lemma emphasisFree_no_asterisk (z T : list ascii) :
  Forall (fun d => d <> asterisk) z ->
  emphasisFree_list (z ++ T) = emphasisFree_list T.
Proof.
  induction 1 as [|d z Hd _ IH]; [reflexivity|].
  cbn [app emphasisFree_list]. rewrite IH.
  apply Ascii.eqb_neq in Hd. unfold asterisk in Hd. rewrite Hd. reflexivity.
Qed.

Lemma emphasisFree_insert (l z T : list ascii) :
  Forall (fun d => d <> asterisk) z -> line_end T ->
  emphasisFree_list (l ++ z ++ T)
    = emphasisFree_list l && emphasisFree_list T.
Proof.
  intros Hz HT. induction l as [|c l IH]; cbn [app emphasisFree_list].
  - apply emphasisFree_no_asterisk. exact Hz.
  - rewrite IH, opens_insert by assumption. apply andb_assoc.
Qed.

(** A prefix of plain characters is looked through. *)
Lemma closes_plain_prefix (p X : list ascii) :
  Forall plain p -> closes (p ++ X) = closes X.
Proof.
  induction 1 as [|c p [Hc Hl] _ IH]; [reflexivity|].
  cbn [app closes]. rewrite IH, Hl.
  apply Ascii.eqb_neq in Hc. unfold asterisk in Hc. rewrite Hc. reflexivity.
Qed.

Lemma opens_plain_prefix (p X : list ascii) :
  Forall plain p -> p <> [] -> opens (p ++ X) = closes X.
Proof.
  intros Hp Hne. destruct Hp as [|c p [Hc Hl] Hp]; [congruence|].
  cbn [app opens]. rewrite Hl, closes_plain_prefix by assumption.
  reflexivity.
Qed.

Lemma plain_no_asterisk (p : list ascii) :
  Forall plain p -> Forall (fun d => d <> asterisk) p.
Proof. intros H. eapply Forall_impl; [exact H|]. intros c [Hc _]. exact Hc. Qed.

(** A header rule keeps the marker pairs of every line. *)
Lemma header_keeps_pairs (hashes open close : string) :
  Forall plain (list_ascii_of_string (hashes +:+ " ")) ->
  Forall plain (list_ascii_of_string open) -> open <> ""%string ->
  Forall plain (list_ascii_of_string close) ->
  forall fuel prev s,
    let out :=
      replace_from fuel true true (re_header hashes)
        (subst [Txt open; Ref 1; Txt close]) prev s in
    reads_alike out s /\ (line_end s -> line_end out).
Proof.
  intros Hh Ho Hone Hc. cbv zeta.
  induction fuel as [|fuel IH]; intros prev s;
    [split; [repeat split | auto]|].
  cbn [replace_from].
  destruct (match_at true (re_header hashes) prev s) as [st'|] eqn:E.
  - destruct (header_match _ _ _ _ E) as (content & Hs & Hcontent & Hend & Hcaps).
    set (p := list_ascii_of_string (hashes +:+ " ")) in *.
    assert (Hp : p <> []).
    { subst p. rewrite list_ascii_of_string_append.
      destruct (list_ascii_of_string hashes); discriminate. }
    assert (Hm : firstn (length s - length (rest st')) s = p ++ content).
    { rewrite Hs. rewrite app_assoc.
      replace (length ((p ++ content) ++ rest st') - length (rest st'))%nat
        with (length (p ++ content)) by (rewrite (length_app (p ++ content)); lia).
      apply take_app_length. }
    rewrite Hm, Hcaps.
    destruct (p ++ content) as [|m0 ms] eqn:Epc;
      [destruct p; [congruence | discriminate]|].
    destruct (IH (before st') (rest st')) as [(I1 & I2 & I3) I4].
    set (R := replace_from fuel true true (re_header hashes)
                (subst [Txt open; Ref 1; Txt close]) (before st') (rest st'))
      in *.
    specialize (I4 Hend).
    assert (Hout : subst [Txt open; Ref 1; Txt close] (m0 :: ms)
                     [(1%nat, content)] ++ R
                   = list_ascii_of_string open ++ content
                     ++ list_ascii_of_string close ++ R).
    { unfold subst. cbn [flat_map get_cap List.find fst snd Nat.eqb].
      rewrite app_nil_r, <- !app_assoc. reflexivity. }
    rewrite Hout, Hs. clear Hout.
    assert (Hopen : list_ascii_of_string open <> []).
    { destruct open; [congruence | discriminate]. }
    pose proof (plain_no_asterisk _ Hc) as Hc'.
    split.
    + repeat split.
      * rewrite (closes_plain_prefix (list_ascii_of_string open)),
          (closes_plain_prefix p) by assumption.
        rewrite closes_insert by assumption.
        rewrite <- (closes_insert content [] (rest st')) by (auto; constructor).
        reflexivity.
      * rewrite (opens_plain_prefix (list_ascii_of_string open)),
          (opens_plain_prefix p) by assumption.
        rewrite closes_insert by assumption.
        rewrite <- (closes_insert content [] (rest st')) by (auto; constructor).
        reflexivity.
      * rewrite (emphasisFree_no_asterisk (list_ascii_of_string open)),
          (emphasisFree_no_asterisk p)
          by (apply plain_no_asterisk; assumption).
        rewrite emphasisFree_insert by assumption.
        change (content ++ rest st') with (content ++ [] ++ rest st').
        rewrite (emphasisFree_insert content [] (rest st'))
          by (auto; constructor).
        rewrite I3. reflexivity.
    + intros Hl. exfalso.
      destruct p as [|c0 p']; [congruence|].
      inversion Hh as [|? ? [_ Hl0] _]; subst. simpl in Hl.
      rewrite Hl0 in Hl. discriminate.
  - destruct s as [|c tl]; [split; [repeat split | auto]|].
    destruct (IH (Some c) tl) as [(I1 & I2 & I3) I4].
    split; [|intros H; exact H].
    repeat split; cbn [closes opens emphasisFree_list]; congruence.
Qed.

Lemma plain_dec (l : list ascii) :
  forallb (fun c => negb (Ascii.eqb c asterisk)
                    && negb (is_line_terminator c)) l = true ->
  Forall plain l.
Proof.
  induction l as [|c l IH]; simpl; [constructor|].
  intros H. apply andb_true_iff in H. destruct H as [Hc Hl].
  apply andb_true_iff in Hc. destruct Hc as [H1 H2].
  constructor; [|exact (IH Hl)]. split.
  - intros ->. rewrite Ascii.eqb_refl in H1. discriminate.
  - apply negb_true_iff. exact H2.
Qed.

Lemma header_rule_keeps_pairs (hashes open close : string) (text : string) :
  forallb (fun c => negb (Ascii.eqb c asterisk)
                    && negb (is_line_terminator c))
    (list_ascii_of_string (hashes +:+ " ") ++ list_ascii_of_string open
     ++ list_ascii_of_string close) = true ->
  open <> ""%string ->
  emphasisFree
    (replace true true (re_header hashes) [Txt open; Ref 1; Txt close] text)
  = emphasisFree text.
Proof.
  intros H Hopen. apply plain_dec in H.
  apply Forall_app in H. destruct H as [Hh H].
  apply Forall_app in H. destruct H as [Ho Hc].
  unfold emphasisFree, replace, replace_with, replace_list.
  rewrite list_ascii_of_string_of_list_ascii.
  apply (header_keeps_pairs hashes open close Hh Ho Hopen Hc).
Qed.

(** The header rules keep the marker pairs of every line of the body. *)
Lemma headers_keep_pairs (body : string) :
  emphasisFree (headers body) = emphasisFree body.
Proof.
  unfold headers, header2, header3, header4.
  rewrite !header_rule_keeps_pairs;
    first [reflexivity | vm_compute; reflexivity | discriminate].
Qed.
(** C1, as amended.  [renderMarkdown] runs the header rules, then the
    bold and the italic rule, over the whole body, and the code-block
    rule wraps what they leave: nothing shields fenced code from them.
    The bold and the italic rule leave a text as it is exactly when no
    line of it holds two asterisks with at least one character between
    them.  So they leave a fenced block as it is exactly when no line of
    its code holds such a pair, and they leave what the header rules
    made of a body as it is exactly when no line of the body does. *)
Theorem emphasis_rules_reach_fences :
  (forall body,
     renderMarkdown body =
       lineBreaks (paragraphs (wrapLists (bullets (links (inlineCode
         (codeBlocks (italic (bold (headers body)))))))))) /\
  (forall text, emphasisFree text = true ->
     bold text = text /\ italic text = text) /\
  (forall text, italic (bold text) = text <-> emphasisFree text = true) /\
  (forall code,
     italic (bold (fenced code)) = fenced code <-> emphasisFree code = true)
  /\
  (forall body,
     italic (bold (headers body)) = headers body
     <-> emphasisFree body = true).
Proof.
  assert (Hkeep : forall text, emphasisFree text = true ->
    bold text = text /\ italic text = text).
  { intros text H. split; apply emphasisFree_unchanged;
      [exact bold_match_opens | exact H | exact italic_match_opens | exact H]. }
  assert (Hiff : forall text,
    italic (bold text) = text <-> emphasisFree text = true).
  { intros text. split.
    - intros H. destruct (emphasisFree text) eqn:E; [reflexivity|].
      destruct (emphasis_changes text E H).
    - intros H. destruct (Hkeep text H) as [Hb Hi]. rewrite Hb. exact Hi. }
  split; [reflexivity|]. split; [exact Hkeep|]. split; [exact Hiff|].
  split.
  - intros code. rewrite Hiff, emphasisFree_fenced. reflexivity.
  - intros body. rewrite Hiff, headers_keep_pairs. reflexivity.
Qed.

(** C1, as first stated, fails: nothing keeps the italic and bold rules
    from the text of a fence; they rewrite the markers inside it, and the
    block's text is not in the output. *)
Lemma fenced_emphasis_is_rewritten :
  renderMarkdown "```a*b*c```" = pre_open +:+ "a<em>b</em>c" +:+ pre_close /\
  includes (renderMarkdown "```a*b*c```") "a*b*c" = false /\
  renderMarkdown "```x**y**z```" =
    pre_open +:+ "x<strong class=" +:+ q "font-semibold" +:+ ">y</strong>z"
    +:+ pre_close /\
  includes (renderMarkdown "```x**y**z```") "x**y**z" = false.
Proof. vm_compute. repeat split. Qed.

(** A fence whose lines hold one asterisk each is left alone by the
    emphasis rules. *)
Example pointer_code_is_kept :
  let code := "char *p;" +:+ String LF "a * 2" in
  emphasisFree code = true /\
  italic (bold (fenced code)) = fenced code /\
  emphasisFree "a*b*c" = false /\ emphasisFree "a ** b" = true.
Proof. vm_compute. repeat split. Qed.

(** The engine on the patterns of the source. *)
Example italic_is_lazy :
  italic "a*b*c *dd* ***" = "a<em>b</em>c <em>dd</em> <em>*</em>".
Proof. vm_compute. reflexivity. Qed.

Example header_needs_line_start :
  header4 ("### abc" +:+ String LF "x ### y" +:+ String LF "### z")
    = "<h4 class=" +:+
      q "text-sm font-semibold text-gray-900 dark:text-white mt-4 mb-2"
      +:+ ">abc</h4>" +:+ String LF "x ### y" +:+ String LF "<h4 class=" +:+
      q "text-sm font-semibold text-gray-900 dark:text-white mt-4 mb-2"
      +:+ ">z</h4>".
Proof. vm_compute. reflexivity. Qed.

Example fence_drops_language_tag :
  codeBlocks ("```js" +:+ String LF "let x" +:+ String LF "```")
    = pre_open +:+ "let x" +:+ String LF pre_close.
Proof. vm_compute. reflexivity. Qed.

Example list_items_are_grouped :
  wrapLists (bullets ("- one" +:+ String LF "- two"))
    = "<ul class=" +:+ q "my-2 space-y-1" +:+ "><li class=" +:+
      q "ml-4 list-disc" +:+ ">one</li>" +:+ String LF "<li class=" +:+
      q "ml-4 list-disc" +:+ ">two</li></ul>".
Proof. vm_compute. reflexivity. Qed.

Example renderMarkdown_plain_fence :
  renderMarkdown "```a+b```" = pre_open +:+ "a+b" +:+ pre_close.
Proof. vm_compute. reflexivity. Qed.
End MarkdownFacts.

(** ** The console interceptor *)

Section DebugLoggerFacts.
Import DebugLogger.
Context {Fn : Type}.
Implicit Types (s : Runtime Fn) (m : Method).

(** C9. Installing when installed and uninstalling when not installed
    change nothing.  After an install followed by an uninstall every
    console entry point is the function kept in [originalConsole] for
    it, which acts as the original it was bound from, and
    [isInterceptorInstalled] answers false. *)
Theorem interceptor_idempotent_and_restoring s :
  (interceptorInstalled s = true -> installDebugInterceptor s = s) /\
  (interceptorInstalled s = false -> uninstallDebugInterceptor s = s) /\
  let s' := uninstallDebugInterceptor (installDebugInterceptor s) in
  (forall m, slot m (console s') = BoundFn (originalConsole s m)) /\
  (forall m, originalConsole s' m = originalConsole s m) /\
  isInterceptorInstalled s' = false /\
  (forall m args r,
     call (slot m (console s')) args r
       = call (Plain (originalConsole s m)) args r).
Proof.
  unfold installDebugInterceptor, uninstallDebugInterceptor,
    isInterceptorInstalled.
  split; [intros ->; reflexivity|].
  split; [intros ->; reflexivity|].
  destruct (interceptorInstalled s) eqn:E; simpl; rewrite ?E; simpl;
    repeat split; intros []; reflexivity.
Qed.

(** From the state the module is loaded in: the wrappers are in place
    after an install, and an uninstall puts back functions that print
    exactly as the platform's. *)
Lemma install_from_load (platform : Method -> Fn) (debug : bool) :
  let s := installDebugInterceptor (loadModule platform debug) in
  isInterceptorInstalled s = true /\
  (forall m, slot m (console s) = Wrapper m) /\
  (forall m args r,
     call (slot m (console (uninstallDebugInterceptor s))) args r
       = call (slot m (console (loadModule platform debug))) args r).
Proof. simpl. repeat split; intros []; reflexivity. Qed.
End DebugLoggerFacts.

(** ** The statements at sample inputs *)

Section SampleFacts.
Import McpLibrary.

Lemma toggleGlobal_frame_witness :
  toggle_global_mcp acceptingBackend 1 true = Resolved tt /\
  (let s' := snd (toggleGlobal acceptingBackend 1 true sampleStore) in
   fst (toggleGlobal acceptingBackend 1 true sampleStore) = Resolved tt /\
   length (mcps s') = length (mcps sampleStore) /\
   forall (k : nat) (m : Mcp unit), mcps sampleStore !! k = Some m ->
     exists m', mcps s' !! k = Some m' /\
       (id m = 1%Z ->
          isEnabledGlobal m' = true /\
          id m' = id m /\ name m' = name m /\
          description m' = description m /\ type m' = type m /\
          tags m' = tags m /\ isFavorite m' = isFavorite m /\
          others m' = others m) /\
       (id m <> 1%Z -> m' = m)).
Proof.
  split; [reflexivity|].
  apply (toggleGlobal_frame acceptingBackend sampleStore 1 true).
  reflexivity.
Defined.

Example toggleGlobal_sample :
  mcps (snd (toggleGlobal acceptingBackend 1 true sampleStore))
    = [withEnabledGlobal true beta; alpha; gamma].
Proof. reflexivity. Qed.

Lemma absent_id_unchanged_witness :
  Forall (fun m => id m <> 7%Z) (mcps sampleStore) /\
  ((forall request mcp,
      update_mcp acceptingBackend 7 request = Resolved mcp ->
      update acceptingBackend 7 request sampleStore
        = (Resolved mcp, sampleStore)) /\
   (forall enabled,
      toggle_global_mcp acceptingBackend 7 enabled = Resolved tt ->
      toggleGlobal acceptingBackend 7 enabled sampleStore
        = (Resolved tt, sampleStore)) /\
   (delete_mcp acceptingBackend 7 = Resolved tt ->
      McpLibrary.delete acceptingBackend 7 sampleStore
        = (Resolved tt, sampleStore))).
Proof.
  assert (H : Forall (fun m : Mcp unit => id m <> 7%Z) (mcps sampleStore)).
  { simpl. repeat constructor; simpl; lia. }
  split; [exact H|].
  exact (absent_id_unchanged acceptingBackend sampleStore 7 H).
Defined.

Lemma filteredMcps_selects_and_sorts_witness :
  let s := mkState [beta; alpha; gamma] false None "SERVER" all in
  (forall x y, (byLength x y <= 0 \/ byLength y x <= 0)%Z) /\
  (forall x y z, (byLength x y <= 0 -> byLength y z <= 0 ->
                  byLength x z <= 0)%Z) /\
  Permutation (filteredMcps lowerAscii byLength s)
    (List.filter (selectedBy lowerAscii (searchQuery s) (selectedType s))
       (mcps s)) /\
  (forall m, In m (filteredMcps lowerAscii byLength s) <->
     In m (mcps s) /\
     selectedBy lowerAscii (searchQuery s) (selectedType s) m = true) /\
  StronglySorted (favoritesThenName byLength)
    (filteredMcps lowerAscii byLength s).
Proof.
  assert (Ht : forall x y, (byLength x y <= 0 \/ byLength y x <= 0)%Z)
    by (intros x y; unfold byLength; lia).
  assert (Hr : forall x y z, (byLength x y <= 0 -> byLength y z <= 0 ->
                              byLength x z <= 0)%Z)
    by (intros x y z; unfold byLength; lia).
  split; [exact Ht|]. split; [exact Hr|].
  exact (filteredMcps_selects_and_sorts lowerAscii byLength Ht Hr
           (mkState [beta; alpha; gamma] false None "SERVER" all)).
Defined.

Example filteredMcps_by_query :
  filteredMcps lowerAscii byLength
    (mkState [beta; alpha; gamma] false None "SERVER" all) = [gamma; beta].
Proof. vm_compute. reflexivity. Qed.

Example filteredMcps_favourites_first :
  filteredMcps lowerAscii byLength sampleStore = [alpha; gamma; beta].
Proof. vm_compute. reflexivity. Qed.

Example filteredMcps_by_type :
  filteredMcps lowerAscii byLength
    (mkState [beta; alpha; gamma] false None "" (only http)) = [alpha].
Proof. vm_compute. reflexivity. Qed.
End SampleFacts.

Section WhatsNewSampleFacts.
Import WhatsNew.

Lemma checkForWhatsNew_baseline_witness :
  getVersion offlineEnv = Resolved "1.2.0" /\
  ((localStorage freshWorld !! LAST_SEEN_VERSION_KEY = None ->
      checkForWhatsNew offlineEnv freshWorld =
        (Resolved tt,
         mkWorld (store freshWorld)
           (<[LAST_SEEN_VERSION_KEY := "1.2.0"]> (localStorage freshWorld))
           (requests freshWorld))) /\
   (localStorage freshWorld !! LAST_SEEN_VERSION_KEY = Some "1.2.0" ->
      checkForWhatsNew offlineEnv freshWorld = (Resolved tt, freshWorld))).
Proof.
  split; [reflexivity|].
  apply (checkForWhatsNew_baseline offlineEnv freshWorld "1.2.0").
  reflexivity.
Defined.

Example checkForWhatsNew_same_version :
  checkForWhatsNew offlineEnv seenWorld = (Resolved tt, seenWorld).
Proof. vm_compute. reflexivity. Qed.

Example fetchReleaseNotes_offline :
  let w := snd (fetchReleaseNotes offlineEnv "1.2.0" freshWorld) in
  requests w = [taggedUrl "1.2.0"; untaggedUrl "1.2.0"] /\
  release (store w)
    = Some (fallbackRelease "2025-01-01T00:00:00.000Z" "1.2.0") /\
  error (store w) = Some "Release not found" /\
  isLoading (store w) = false.
Proof. vm_compute. repeat split. Qed.

(** A release for 1.1.0 is shown while 1.2.0 is running. *)
Example dismiss_keeps_displayed_version :
  let shown := mkRelease "1.1.0" "Version 1.1.0" "notes" "t" "u" in
  let w := mkWorld (mkState true false (Some shown) None)
             {[ LAST_SEEN_VERSION_KEY := "1.0.0" ]} [] in
  localStorage (snd (dismiss w)) !! LAST_SEEN_VERSION_KEY = Some "1.1.0" /\
  isOpen (store (snd (dismiss w))) = false.
Proof. vm_compute. split; reflexivity. Qed.

Example parseRelease_strips_v :
  parseRelease (mkData "v1.2.0" "" "" "t" "u")
    = mkRelease "1.2.0" "Version v1.2.0" "No release notes available." "t" "u".
Proof. vm_compute. reflexivity. Qed.
End WhatsNewSampleFacts.

(* ===================================================================== *)
(** * Further properties *)
(* ===================================================================== *)

(** ** Lookup in a cache *)

Section FindFacts.
Context {A : Type} (key : A -> Z).

Lemma find_app_key (i : Z) (l : list A) (x : A) :
  List.find (fun y => (key y =? i)%Z) (l ++ [x]) =
    match List.find (fun y => (key y =? i)%Z) l with
    | Some y => Some y
    | None => if (key x =? i)%Z then Some x else None
    end.
Proof.
  induction l as [|y l IH]; simpl; [reflexivity|].
  destruct (key y =? i)%Z; [reflexivity | exact IH].
Qed.

Lemma find_filter_other (i j : Z) (l : list A) :
  j <> i ->
  List.find (fun y => (key y =? j)%Z)
    (List.filter (fun y => negb (key y =? i)%Z) l)
  = List.find (fun y => (key y =? j)%Z) l.
Proof.
  intros Hne. induction l as [|y l IH]; simpl; [reflexivity|].
  destruct (Z.eqb_spec (key y) i) as [Hi|Hi]; simpl.
  - destruct (Z.eqb_spec (key y) j) as [Hj|Hj]; [congruence | exact IH].
  - destruct (key y =? j)%Z; [reflexivity | exact IH].
Qed.

Lemma find_filter_same (i : Z) (l : list A) :
  List.find (fun y => (key y =? i)%Z)
    (List.filter (fun y => negb (key y =? i)%Z) l) = None.
Proof.
  induction l as [|y l IH]; simpl; [reflexivity|].
  destruct (key y =? i)%Z eqn:E; simpl; [exact IH|].
  rewrite E. exact IH.
Qed.

Lemma find_map_replace (i j : Z) (x : A) (l : list A) :
  key x = i ->
  List.find (fun y => (key y =? j)%Z)
    (map (fun y => if (key y =? i)%Z then x else y) l)
  = if (j =? i)%Z
    then match List.find (fun y => (key y =? i)%Z) l with
         | Some _ => Some x
         | None => None
         end
    else List.find (fun y => (key y =? j)%Z) l.
Proof.
  intros Hx. induction l as [|y l IH]; simpl.
  - destruct (j =? i)%Z; reflexivity.
  - rewrite IH. clear IH.
    destruct (Z.eqb_spec (key y) i) as [Hi|Hi];
      destruct (Z.eqb_spec j i) as [Hji|Hji];
      repeat match goal with
      | |- context [(?a =? ?b)%Z] => destruct (Z.eqb_spec a b)
      end; try congruence; try reflexivity.
Qed.

Lemma map_replace_keys (i : Z) (x : A) (l : list A) :
  key x = i ->
  map key (map (fun y => if (key y =? i)%Z then x else y) l) = map key l.
Proof.
  intros Hx. induction l as [|y l IH]; simpl; [reflexivity|].
  rewrite IH. destruct (Z.eqb_spec (key y) i); congruence.
Qed.
End FindFacts.

(** ** The MCP library: loading, counting, lookup *)

Section McpLibraryMore.
Import McpLibrary McpLibraryViews.
Context {Rest CreateMcpRequest : Type}.
Implicit Types (b : McpLibrary.Backend Rest CreateMcpRequest)
  (s : McpLibrary.McpLibraryState Rest) (i j : Z) (m : McpLibrary.Mcp Rest).

(** X1. A resolved [load] replaces the cache by the payload, a rejected
    one keeps the cache; loading again against the same backend answer
    changes nothing more, so repeated loads never grow the cache. *)
Theorem load_replaces_and_is_idempotent b s :
  (forall l, get_all_mcps b = Resolved l -> mcps (snd (load b s)) = l) /\
  (forall e, get_all_mcps b = Rejected e ->
     mcps (snd (load b s)) = mcps s) /\
  searchQuery (snd (load b s)) = searchQuery s /\
  selectedType (snd (load b s)) = selectedType s /\
  snd (load b (snd (load b s))) = snd (load b s).
Proof.
  rewrite !mcpLibrary_load_runs.
  destruct (get_all_mcps b) as [l|e]; [|destruct (String_ e)]; simpl;
    repeat split; congruence.
Qed.

(** The three kinds have different names: a type string is at most one
    of them. *)
Lemma typeIs_exclusive (type : string) :
  let kind := typeIs type in
  (kind McpLibrary.stdio = true /\ kind McpLibrary.sse = false /\
   kind McpLibrary.http = false) \/
  (kind McpLibrary.stdio = false /\ kind McpLibrary.sse = true /\
   kind McpLibrary.http = false) \/
  (kind McpLibrary.stdio = false /\ kind McpLibrary.sse = false /\
   kind McpLibrary.http = true) \/
  (kind McpLibrary.stdio = false /\ kind McpLibrary.sse = false /\
   kind McpLibrary.http = false).
Proof.
  unfold typeIs. cbn [typeName].
  destruct (String.eqb_spec type "stdio") as [->|_]; [left; auto|].
  destruct (String.eqb_spec type "sse") as [->|_]; [right; left; auto|].
  destruct (String.eqb_spec type "http") as [->|_]; [right; right; left|];
    auto 10.
Qed.

(** X2. [mcpCount.total] is the sum of the three per-type subtotals and
    of the number of cached entities whose type is none of ['stdio'],
    ['sse'], ['http']; so the subtotals add up to the total exactly when
    there is no such entity. *)
Theorem mcpCount_partition s :
  let unnamed :=
    List.filter
      (fun m => negb (existsb (typeIs (type m))
                        [McpLibrary.stdio; McpLibrary.sse; McpLibrary.http]))
      (mcps s) in
  total (mcpCount s) =
    (stdio (mcpCount s) + sse (mcpCount s) + http (mcpCount s)
     + length unnamed)%nat /\
  (total (mcpCount s) =
     (stdio (mcpCount s) + sse (mcpCount s) + http (mcpCount s))%nat
   <-> unnamed = []).
Proof.
  intros unnamed.
  assert (Hsum : total (mcpCount s) =
    (stdio (mcpCount s) + sse (mcpCount s) + http (mcpCount s)
     + length unnamed)%nat).
  { subst unnamed. unfold mcpCount, hasType.
    cbn [total stdio sse http].
    induction (mcps s) as [|m l IH]; [reflexivity|].
    cbn -[typeIs] in *.
    destruct (typeIs_exclusive (type m)) as [H|[H|[H|H]]];
      destruct H as (-> & -> & ->); cbn; lia. }
  split; [exact Hsum|]. rewrite Hsum. split.
  - intros H. destruct unnamed; [reflexivity | simpl in H; lia].
  - intros ->. simpl. lia.
Qed.

(** X3. After a resolved [create] or [duplicate] the new entity is at the
    end of the cache, and a lookup by id answers as before for every id
    that was cached; the new entity is found under its id only if that id
    was not cached already. *)
Theorem append_then_lookup b s :
  (forall request mcp, create_mcp b request = Resolved mcp ->
     fst (create b request s) = Resolved mcp /\
     mcps (snd (create b request s)) = mcps s ++ [mcp] /\
     forall j, getMcpById j (snd (create b request s)) =
       match getMcpById j s with
       | Some m => Some m
       | None => if (id mcp =? j)%Z then Some mcp else None
       end) /\
  (forall i mcp, duplicate_mcp b i = Resolved mcp ->
     fst (duplicate b i s) = Resolved mcp /\
     mcps (snd (duplicate b i s)) = mcps s ++ [mcp] /\
     forall j, getMcpById j (snd (duplicate b i s)) =
       match getMcpById j s with
       | Some m => Some m
       | None => if (id mcp =? j)%Z then Some mcp else None
       end).
Proof.
  split; intros ? mcp H; unfold create, duplicate; task_unfold; rewrite H;
    simpl; (split; [reflexivity|]); (split; [reflexivity|]);
    intros j; unfold getMcpById; simpl; apply find_app_key.
Qed.

(** X4. After a resolved [delete] no entity with the id is found, every
    other id is looked up as before, and the cache holds exactly the
    other entities. *)
Theorem delete_then_lookup b s i :
  delete_mcp b i = Resolved tt ->
  let s' := snd (McpLibrary.delete b i s) in
  getMcpById i s' = None /\
  (forall j, j <> i -> getMcpById j s' = getMcpById j s) /\
  (forall m, In m (mcps s') <-> In m (mcps s) /\ id m <> i).
Proof.
  intros H. unfold McpLibrary.delete. task_unfold. rewrite H. simpl.
  unfold getMcpById. simpl. split; [apply find_filter_same|].
  split; [intros j Hj; apply find_filter_other; exact Hj|].
  intros m. rewrite filter_In. split; intros [Hin Hid]; split; auto.
  - intros Heq. rewrite Heq, Z.eqb_refl in Hid. discriminate.
  - destruct (Z.eqb_spec (id m) i); [contradiction | reflexivity].
Qed.

(** X5. After a resolved [update] whose answer carries the id it was
    asked for, the cached ids are as before, a lookup of that id finds
    the answer whenever the id was cached, and other ids are looked up
    as before. *)
Theorem update_then_lookup b s i request mcp :
  update_mcp b i request = Resolved mcp ->
  id mcp = i ->
  let s' := snd (update b i request s) in
  map id (mcps s') = map id (mcps s) /\
  (forall m, getMcpById i s = Some m -> getMcpById i s' = Some mcp) /\
  (getMcpById i s = None -> getMcpById i s' = None) /\
  (forall j, j <> i -> getMcpById j s' = getMcpById j s).
Proof.
  intros H Hid. unfold update. task_unfold. rewrite H. simpl.
  unfold getMcpById. simpl.
  split; [apply map_replace_keys; exact Hid|].
  split; [|split].
  - intros m Hm. rewrite (find_map_replace id i i mcp _ Hid), Z.eqb_refl, Hm.
    reflexivity.
  - intros Hm. rewrite (find_map_replace id i i mcp _ Hid), Z.eqb_refl, Hm.
    reflexivity.
  - intros j Hj. rewrite (find_map_replace id i j mcp _ Hid).
    destruct (Z.eqb_spec j i); [contradiction | reflexivity].
Qed.
(** X12. [updateMcp] replaces the cached entries that carry the given
    entity's id and nothing else: the cached ids stay, a lookup of that
    id finds the given entity whenever the id was cached, other lookups
    are unchanged, and applying it twice is applying it once. *)
Theorem updateMcp_replaces (mcp : McpLibrary.Mcp Rest) s :
  map id (mcps (updateMcp mcp s)) = map id (mcps s) /\
  (forall m, getMcpById (id mcp) s = Some m ->
     getMcpById (id mcp) (updateMcp mcp s) = Some mcp) /\
  (forall j, j <> id mcp ->
     getMcpById j (updateMcp mcp s) = getMcpById j s) /\
  updateMcp mcp (updateMcp mcp s) = updateMcp mcp s.
Proof.
  unfold updateMcp, getMcpById. simpl.
  split; [apply map_replace_keys; reflexivity|].
  split; [|split].
  - intros m Hm.
    rewrite (find_map_replace id (id mcp) (id mcp) mcp _ eq_refl),
      Z.eqb_refl, Hm.
    reflexivity.
  - intros j Hj. rewrite (find_map_replace id (id mcp) j mcp _ eq_refl).
    destruct (Z.eqb_spec j (id mcp)); [contradiction | reflexivity].
  - unfold set_mcps. simpl. f_equal. rewrite map_map. apply map_ext.
    intros m. destruct (Z.eqb_spec (id m) (id mcp)) as [_|Hne].
    + rewrite Z.eqb_refl. reflexivity.
    + destruct (Z.eqb_spec (id m) (id mcp)); [contradiction | reflexivity].
Qed.
End McpLibraryMore.

(** ** Sorting: maps, filters and ties *)

Section SortMore.
Context {A : Type} (cmp : A -> A -> Z).

Lemma insert_map (f : A -> A) (x : A) (l : list A) :
  (forall a b, cmp (f a) (f b) = cmp a b) ->
  JsArray.insert cmp (f x) (map f l) = map f (JsArray.insert cmp x l).
Proof.
  intros Hf. induction l as [|y l IH]; simpl; [reflexivity|].
  rewrite Hf. destruct (cmp x y <=? 0)%Z; simpl; [reflexivity|].
  rewrite IH. reflexivity.
Qed.

(** Sorting commutes with a map that the comparator does not see. *)
Lemma sort_map (f : A -> A) (l : list A) :
  (forall a b, cmp (f a) (f b) = cmp a b) ->
  JsArray.sort cmp (map f l) = map f (JsArray.sort cmp l).
Proof.
  intros Hf. unfold JsArray.sort.
  induction l as [|x l IH]; simpl; [reflexivity|].
  rewrite IH. apply insert_map. exact Hf.
Qed.

Lemma filter_map_invariant (f : A -> A) (p : A -> bool) (l : list A) :
  (forall a, p (f a) = p a) ->
  List.filter p (map f l) = map f (List.filter p l).
Proof.
  intros Hp. induction l as [|x l IH]; simpl; [reflexivity|].
  rewrite Hp, IH. destruct (p x); reflexivity.
Qed.

Hypothesis cmp_total : forall a b, (cmp a b <= 0 \/ cmp b a <= 0)%Z.
Hypothesis cmp_trans :
  forall a b c, (cmp a b <= 0 -> cmp b c <= 0 -> cmp a c <= 0)%Z.

Lemma filter_insert_sorted (p : A -> bool) (x : A) (l : list A) :
  StronglySorted (fun a b => (cmp a b <= 0)%Z) l ->
  List.filter p (JsArray.insert cmp x l) =
    if p x then JsArray.insert cmp x (List.filter p l) else List.filter p l.
Proof.
  induction 1 as [|y l Hl IH Hy]; simpl.
  - destruct (p x); reflexivity.
  - destruct (Z.leb_spec (cmp x y) 0) as [Hxy|Hxy]; simpl.
    + destruct (p x) eqn:Ex; [|reflexivity].
      f_equal. destruct (p y) eqn:Ey; simpl.
      * destruct (Z.leb_spec (cmp x y) 0); [reflexivity | lia].
      * assert (Hall : Forall (fun z => (cmp x z <= 0)%Z) (List.filter p l)).
        { apply Forall_forall. intros z Hz. apply list_elem_of_In in Hz.
          apply filter_In in Hz. destruct Hz as [Hz _].
          rewrite Forall_forall in Hy.
          apply (cmp_trans x y z Hxy). apply Hy.
          apply list_elem_of_In. exact Hz. }
        destruct (List.filter p l) as [|z fl]; [reflexivity|]. simpl.
        inversion Hall; subst.
        destruct (Z.leb_spec (cmp x z) 0); [reflexivity | lia].
    + rewrite IH. destruct (p y) eqn:Ey; destruct (p x) eqn:Ex; simpl;
        try reflexivity.
      destruct (Z.leb_spec (cmp x y) 0); [lia | reflexivity].
Qed.

(** Filtering a sorted list and sorting a filtered one agree. *)
Lemma filter_sort (p : A -> bool) (l : list A) :
  List.filter p (JsArray.sort cmp l) = JsArray.sort cmp (List.filter p l).
Proof.
  induction l as [|x l IH]; [reflexivity|].
  change (JsArray.sort cmp (x :: l))
    with (JsArray.insert cmp x (JsArray.sort cmp l)).
  rewrite filter_insert_sorted by (apply sort_sorted; assumption).
  simpl. destruct (p x); rewrite IH; reflexivity.
Qed.

Lemma filter_insert_ties (x a : A) (l : list A) :
  List.filter (tiesWith cmp x) (JsArray.insert cmp a l) =
    if tiesWith cmp x a then a :: List.filter (tiesWith cmp x) l
    else List.filter (tiesWith cmp x) l.
Proof.
  induction l as [|y l IH]; simpl.
  - destruct (tiesWith cmp x a); reflexivity.
  - destruct (Z.leb_spec (cmp a y) 0) as [Hay|Hay]; simpl.
    + destruct (tiesWith cmp x a); reflexivity.
    + rewrite IH.
      destruct (tiesWith cmp x y) eqn:Ey; destruct (tiesWith cmp x a) eqn:Ea;
        try reflexivity.
      unfold tiesWith in Ey, Ea.
      apply andb_true_iff in Ey. apply andb_true_iff in Ea.
      destruct Ey as [Hxy _]. destruct Ea as [_ Hax].
      apply Z.leb_le in Hxy. apply Z.leb_le in Hax.
      pose proof (cmp_trans a x y Hax Hxy). lia.
Qed.

(** Stability: sorting keeps tied elements in the order they had. *)
Lemma sort_keeps_ties (x : A) (l : list A) :
  List.filter (tiesWith cmp x) (JsArray.sort cmp l)
  = List.filter (tiesWith cmp x) l.
Proof.
  induction l as [|a l IH]; [reflexivity|].
  change (JsArray.sort cmp (a :: l))
    with (JsArray.insert cmp a (JsArray.sort cmp l)).
  rewrite filter_insert_ties, IH. simpl.
  destruct (tiesWith cmp x a); reflexivity.
Qed.
End SortMore.

Section ViewMore.
Import McpLibrary McpLibraryViews.
Context {Rest CreateMcpRequest : Type}.
Context (toLowerCase : string -> string).
Context (localeCompare : string -> string -> Z).
Implicit Types (b : McpLibrary.Backend Rest CreateMcpRequest)
  (s : McpLibrary.McpLibraryState Rest) (m : McpLibrary.Mcp Rest).

Lemma compareMcps_consistent :
  (forall x y, (localeCompare x y <= 0 \/ localeCompare y x <= 0)%Z) ->
  (forall x y z, (localeCompare x y <= 0 -> localeCompare y z <= 0 ->
                  localeCompare x z <= 0)%Z) ->
  (forall a b : McpLibrary.Mcp Rest,
     (compareMcps localeCompare a b <= 0
      \/ compareMcps localeCompare b a <= 0)%Z) /\
  (forall a b c : McpLibrary.Mcp Rest,
     (compareMcps localeCompare a b <= 0 ->
      compareMcps localeCompare b c <= 0 ->
      compareMcps localeCompare a c <= 0)%Z).
Proof.
  intros Ht Hr. split.
  - intros a b. unfold compareMcps.
    destruct (isFavorite a), (isFavorite b); simpl; try lia; apply Ht.
  - intros a b c. unfold compareMcps.
    destruct (isFavorite a), (isFavorite b), (isFavorite c); simpl;
      try lia; apply Hr.
Qed.

(** X6. A resolved [toggleGlobal] neither hides nor reorders anything in
    the filtered view, and leaves the counts alone: the view afterwards
    is the view before with the flag set on the entries carrying the
    id. *)
Theorem toggleGlobal_keeps_view b s i enabled :
  toggle_global_mcp b i enabled = Resolved tt ->
  let s' := snd (toggleGlobal b i enabled s) in
  filteredMcps toLowerCase localeCompare s' =
    map (fun m => if (id m =? i)%Z then withEnabledGlobal enabled m else m)
      (filteredMcps toLowerCase localeCompare s) /\
  mcpCount s' = mcpCount s.
Proof.
  intros H. unfold toggleGlobal. task_unfold. rewrite H. simpl.
  set (g := fun m : McpLibrary.Mcp Rest =>
              if (id m =? i)%Z then withEnabledGlobal enabled m else m).
  assert (Hname : forall m, name (g m) = name m)
    by (intros m; unfold g; destruct (id m =? i)%Z; reflexivity).
  assert (Hfav : forall m, isFavorite (g m) = isFavorite m)
    by (intros m; unfold g; destruct (id m =? i)%Z; reflexivity).
  assert (Htype : forall m, type (g m) = type m)
    by (intros m; unfold g; destruct (id m =? i)%Z; reflexivity).
  assert (Hsel : forall q sel m,
    selectedBy toLowerCase q sel (g m) = selectedBy toLowerCase q sel m)
    by (intros q sel m; unfold g; destruct (id m =? i)%Z; reflexivity).
  split.
  - rewrite !filteredMcps_unfold. simpl.
    rewrite filter_map_invariant by (intros m; apply Hsel).
    apply sort_map. intros x y. unfold compareMcps.
    rewrite !Hname, !Hfav. reflexivity.
  - unfold mcpCount. simpl. rewrite length_map. f_equal;
      (rewrite filter_map_invariant;
       [apply length_map | intros m; unfold hasType; rewrite Htype;
                           reflexivity]).
Qed.

Hypothesis localeCompare_total :
  forall x y, (localeCompare x y <= 0 \/ localeCompare y x <= 0)%Z.
Hypothesis localeCompare_trans :
  forall x y z, (localeCompare x y <= 0 -> localeCompare y z <= 0 ->
                 localeCompare x z <= 0)%Z.

(** X7. For a consistent [localeCompare], choosing a type with
    [setTypeFilter] only thins the unfiltered-by-type view out: the
    entries of that type stay in the order they had under ['all']. *)
Theorem setTypeFilter_thins_view s (t : McpType) :
  filteredMcps toLowerCase localeCompare (setTypeFilter (only t) s) =
    List.filter (hasType t)
      (filteredMcps toLowerCase localeCompare (setTypeFilter all s)).
Proof.
  destruct (compareMcps_consistent localeCompare_total localeCompare_trans)
    as [Ht Hr].
  rewrite !filteredMcps_unfold. simpl.
  rewrite (filter_sort _ Ht Hr). f_equal.
  assert (Hsel : forall m,
    selectedBy toLowerCase (searchQuery s) (only t) m =
      selectedBy toLowerCase (searchQuery s) all m && hasType t m).
  { intros m. unfold selectedBy, hasType. rewrite andb_true_r.
    reflexivity. }
  induction (mcps s) as [|m l IH]; simpl; [reflexivity|].
  rewrite Hsel.
  destruct (selectedBy toLowerCase (searchQuery s) all m); simpl;
    [destruct (hasType t m)|]; rewrite IH; reflexivity.
Qed.

(** X8. For a consistent [localeCompare] the view is stable: the shown
    entities that tie with a given one (same favourite status, names
    that compare equal both ways) appear in cache order. *)
Theorem filteredMcps_keeps_ties s (x : McpLibrary.Mcp Rest) :
  List.filter (tiesWith (compareMcps localeCompare) x)
    (filteredMcps toLowerCase localeCompare s)
  = List.filter (tiesWith (compareMcps localeCompare) x)
      (List.filter (selectedBy toLowerCase (searchQuery s) (selectedType s))
         (mcps s)).
Proof.
  destruct (compareMcps_consistent localeCompare_total localeCompare_trans)
    as [Ht Hr].
  rewrite filteredMcps_unfold. apply sort_keeps_ties; assumption.
Qed.
End ViewMore.

(** ** The projects store: mutations and reloads *)

Section ProjectsMore.
Import Projects ProjectsOps.
Context {Project GlobalMcp CreateProjectRequest : Type}.
Context (projectId : Project -> Z).
Implicit Types (b : Projects.Backend Project GlobalMcp)
  (c : ProjectsOps.Commands Project CreateProjectRequest)
  (s : Projects.ProjectsState Project GlobalMcp).

Lemma then_loadProjects (command : Outcome unit) b s :
  reloads_projects command b
    (TaskM.await command;; loadProjects b) s.
Proof.
  split.
  - intros e ->. reflexivity.
  - intros ->.
    change ((TaskM.await (Resolved tt);; loadProjects b) s)
      with (loadProjects b s).
    rewrite loadProjects_runs.
    destruct (get_all_projects b) as [l|e];
      [|destruct (String_ e) as [text|t] eqn:Hs];
      (split; [reflexivity|]); (split; [reflexivity|]);
      (split; [intros l' Hl | split; [intros e' x He Hx | intros e' x He Hx]]);
      try discriminate.
    + injection Hl as <-. auto.
    + injection He as <-. rewrite Hs in Hx. injection Hx as <-. auto.
    + injection He as <-. rewrite Hs in Hx. discriminate.
    + injection He as <-. rewrite Hs in Hx. discriminate.
    + injection He as <-. rewrite Hs in Hx. injection Hx as <-. auto.
Qed.

Lemma then_loadGlobalMcps (command : Outcome unit) b s :
  reloads_globalMcps command b
    (TaskM.await command;; loadGlobalMcps b) s.
Proof.
  split.
  - intros e ->. reflexivity.
  - intros ->. unfold loadGlobalMcps. task_unfold.
    destruct (get_global_mcps b) as [l|e]; simpl;
      (split; [reflexivity|]);
      (split; [intros l' Hl | intros e' He]);
      first [discriminate | injection Hl as <- | injection He as <-];
      try reflexivity.

Qed.

(** X9. [assignMcpToProject], [removeMcpFromProject] and
    [toggleProjectMcp] reject with their own command's rejection and
    then change nothing.  After a resolved command [isLoading] ends
    false and [globalMcps] is untouched; a resolved reload replaces the
    projects and clears [error]; a rejected reload keeps the old projects
    list, and either sets [error] to [String(e)] and returns normally
    or, when [String(e)] throws, rejects with what it threw and leaves
    [error] cleared. *)
Theorem project_assignments_reload b c s :
  (forall project mcp,
     reloads_projects (assign_mcp_to_project c project mcp) b
       (assignMcpToProject b c project mcp) s) /\
  (forall project mcp,
     reloads_projects (remove_mcp_from_project c project mcp) b
       (removeMcpFromProject b c project mcp) s) /\
  (forall assignment enabled,
     reloads_projects (toggle_project_mcp c assignment enabled) b
       (toggleProjectMcp b c assignment enabled) s).
Proof.
  split; [|split]; intros; apply then_loadProjects.
Qed.

(** X10. [addGlobalMcp], [removeGlobalMcp] and [toggleGlobalMcp] reject
    only when their own command is rejected.  After a resolved command a
    resolved reload replaces [globalMcps] and nothing else; a rejected
    reload is swallowed and leaves the whole store, [error] included, as
    it was. *)
Theorem globalMcp_mutations_reload b c s :
  (forall mcp,
     reloads_globalMcps (add_global_mcp c mcp) b (addGlobalMcp b c mcp) s) /\
  (forall mcp,
     reloads_globalMcps (remove_global_mcp c mcp) b
       (removeGlobalMcp b c mcp) s) /\
  (forall i enabled,
     reloads_globalMcps (toggle_global_mcp_assignment c i enabled) b
       (toggleGlobalMcp b c i enabled) s).
Proof.
  split; [|split]; intros; apply then_loadGlobalMcps.
Qed.

(** X11. The projects list follows [addProject] and [removeProject] as a
    keyed collection: a resolved add puts the project at the end and it
    is found under its id unless that id was listed already; a resolved
    remove leaves no project with the id and keeps the lookups of all
    other ids.  None of the two touches [globalMcps], [isLoading] or
    [error]. *)
Theorem project_add_remove_lookup c s :
  (forall request p, add_project c request = Resolved p ->
     let s' := snd (addProject c request s) in
     fst (addProject c request s) = Resolved p /\
     s' = set_projects (projects s ++ [p]) s /\
     forall j, getProjectById projectId j s' =
       match getProjectById projectId j s with
       | Some q => Some q
       | None => if (projectId p =? j)%Z then Some p else None
       end) /\
  (forall i, remove_project c i = Resolved tt ->
     let s' := snd (removeProject projectId c i s) in
     getProjectById projectId i s' = None /\
     (forall j, j <> i ->
        getProjectById projectId j s' = getProjectById projectId j s) /\
     globalMcps s' = globalMcps s /\ isLoading s' = isLoading s /\
     error s' = error s).
Proof.
  split.
  - intros request p H. unfold addProject. task_unfold. rewrite H. simpl.
    split; [reflexivity|]. split; [reflexivity|].
    intros j. unfold getProjectById. simpl. apply find_app_key.
  - intros i H. unfold removeProject. task_unfold. rewrite H. simpl.
    unfold getProjectById. simpl. split; [apply find_filter_same|].
    split; [intros j Hj; apply find_filter_other; exact Hj|].
    repeat split.
Qed.

End ProjectsMore.

(** ** The debug store *)

(** Splits a conjunction of outcome cases and settles each one: a case
    whose premise names another outcome is discharged, the others are
    closed by computation. *)
Ltac outcome_cases :=
  repeat match goal with
  | |- _ /\ _ => split
  | |- forall _, _ = _ -> _ =>
      let H := fresh in
      intros ? H; first [discriminate H | injection H as H; subst | idtac]
  | |- _ = _ -> _ =>
      let H := fresh in
      intros H; first [discriminate H | injection H as H; subst | idtac]
  end; try reflexivity.

Section DebugStoreMore.
Import DebugStore.
Context {Num : Type}.
Context (intercepted : bool) (jsonOf : Thrown -> string).
Implicit Types (b : DebugStore.Backend Num) (w : DebugStore.World Num).

(** X13. [enable] and [disable] clear [isLoading] on every exit.  A
    resolved command is the only one sent.  A rejected command is passed
    on to the caller with [isEnabled] and [logFilePath] as they were;
    its [console.error] line follows the command as one ERROR log entry
    exactly when the console interceptor is installed and debug mode was
    on. *)
Theorem enable_disable_scoped_loading b w :
  isLoading (store (snd (enable b intercepted jsonOf w))) = false /\
  isLoading (store (snd (disable b intercepted jsonOf w))) = false /\
  (forall path, on_enable b = Resolved path ->
     invoked (snd (enable b intercepted jsonOf w))
       = invoked w ++ [enable_debug_mode]) /\
  (on_disable b = Resolved tt ->
     invoked (snd (disable b intercepted jsonOf w))
       = invoked w ++ [disable_debug_mode]) /\
  (forall e, on_enable b = Rejected e ->
     fst (enable b intercepted jsonOf w) = Rejected e /\
     isEnabled (store (snd (enable b intercepted jsonOf w)))
       = isEnabled (store w) /\
     logFilePath (store (snd (enable b intercepted jsonOf w)))
       = logFilePath (store w) /\
     invoked (snd (enable b intercepted jsonOf w))
       = invoked w ++ enable_debug_mode ::
           forwarded intercepted (isEnabled (store w))
             [DebugLogger.AString "Failed to enable debug mode:";
              thrownArg jsonOf e]) /\
  (forall e, on_disable b = Rejected e ->
     fst (disable b intercepted jsonOf w) = Rejected e /\
     isEnabled (store (snd (disable b intercepted jsonOf w)))
       = isEnabled (store w) /\
     logFilePath (store (snd (disable b intercepted jsonOf w)))
       = logFilePath (store w) /\
     invoked (snd (disable b intercepted jsonOf w))
       = invoked w ++ disable_debug_mode ::
           forwarded intercepted (isEnabled (store w))
             [DebugLogger.AString "Failed to disable debug mode:";
              thrownArg jsonOf e]).
Proof.
  unfold enable, disable, invoke, consoleError. task_unfold.
  destruct (on_enable b) as [p|e1]; destruct (on_disable b) as [[]|e2]; cbn;
    outcome_cases; rewrite <- app_assoc; reflexivity.
Qed.

(** X14. With a backend that accepts both commands, [enable] followed by
    [disable] ends disabled with the log path that [enable] received
    still in [logFilePath]. *)
Theorem disable_keeps_log_path b w (path : string) :
  on_enable b = Resolved path ->
  on_disable b = Resolved tt ->
  let w1 := snd (enable b intercepted jsonOf w) in
  let w2 := snd (disable b intercepted jsonOf w1) in
  isEnabled (store w1) = true /\ logFilePath (store w1) = Some path /\
  fst (disable b intercepted jsonOf w1) = Resolved tt /\
  isEnabled (store w2) = false /\ logFilePath (store w2) = Some path /\
  isLoading (store w2) = false.
Proof.
  intros He Hd. unfold enable, disable, invoke. task_unfold.
  rewrite He, Hd. cbn. repeat split.
Qed.

(** X15. With a backend that accepts both commands, [toggle] flips
    [isEnabled], and two toggles bring it back. *)
Theorem toggle_flips b w (path : string) :
  on_enable b = Resolved path ->
  on_disable b = Resolved tt ->
  fst (toggle b intercepted jsonOf w) = Resolved tt /\
  isEnabled (store (snd (toggle b intercepted jsonOf w)))
    = negb (isEnabled (store w)) /\
  isEnabled
    (store (snd (toggle b intercepted jsonOf
                   (snd (toggle b intercepted jsonOf w)))))
    = isEnabled (store w).
Proof.
  intros He Hd. unfold toggle, enable, disable, invoke. task_unfold.
  destruct w as [[en p ld] inv]. cbn.
  destruct en; cbn; rewrite ?He, ?Hd; cbn; rewrite ?He, ?Hd; cbn;
    repeat split.
Qed.

(** X16. While debug mode is off, [log], [warn], [error] and [logInvoke]
    send nothing to the backend and change nothing. *)
Theorem logging_disabled_is_noop b w :
  isEnabled (store w) = false ->
  (forall message context,
     log b message context w = (Resolved tt, w) /\
     warn b message context w = (Resolved tt, w) /\
     error b message context w = (Resolved tt, w)) /\
  (forall command durationMs success args err,
     logInvoke b command durationMs success args err w = (Resolved tt, w)).
Proof.
  intros H. unfold log, warn, error, writeLog, logInvoke. task_unfold.
  rewrite H. cbn. repeat split.
Qed.

(** X17. While debug mode is on, [log], [warn] and [error] send one
    [write_frontend_log] command, with their level and with an empty
    context turned into [null], and return normally whatever the backend
    answers; the store is not touched. *)
Theorem logging_enabled_swallows_failures b w message context :
  isEnabled (store w) = true ->
  log b message context w =
    (Resolved tt,
     mkWorld (store w)
       (invoked w ++ [write_frontend_log "INFO" message (or_null context)]))
  /\
  warn b message context w =
    (Resolved tt,
     mkWorld (store w)
       (invoked w ++ [write_frontend_log "WARN" message (or_null context)]))
  /\
  error b message context w =
    (Resolved tt,
     mkWorld (store w)
       (invoked w ++ [write_frontend_log "ERROR" message (or_null context)])).
Proof.
  intros H. unfold log, warn, error, writeLog, invoke. task_unfold.
  rewrite H. cbn.
  repeat split;
    match goal with
    | |- context [on_write_log b ?l ?m ?c] =>
        destruct (on_write_log b l m c) as [[]|e]; reflexivity
    end.
Qed.

(** X18. While debug mode is on, [logInvoke] never rejects: neither a
    rejected backend call nor arguments that cannot be serialized reach
    the caller, and in the latter case no command is sent at all. *)
Theorem logInvoke_never_rejects b w command durationMs success args err :
  isEnabled (store w) = true ->
  let w' := snd (logInvoke b command durationMs success args err w) in
  fst (logInvoke b command durationMs success args err w) = Resolved tt /\
  store w' = store w /\
  (forall e, args = Some (Rejected e) -> invoked w' = invoked w) /\
  (forall j, args = Some (Resolved j) ->
     invoked w' = invoked w ++
       [write_invoke_log command durationMs success (Some j) (or_null err)])
  /\
  (args = None ->
     invoked w' = invoked w ++
       [write_invoke_log command durationMs success None (or_null err)]).
Proof.
  intros H. unfold logInvoke, stringifyArgs, invoke. task_unfold.
  rewrite H. cbn.
  destruct args as [[j|e]|]; cbn;
    try match goal with
    | |- context [on_write_invoke b ?a1 ?a2 ?a3 ?a4 ?a5] =>
        destruct (on_write_invoke b a1 a2 a3 a4 a5) as [[]|e']
    end; cbn; outcome_cases.
Qed.

(** X19. [load] never rejects and never touches [isLoading].  It asks
    for the log path only when the backend says debug mode is on; when
    that first answer is a rejection the store is left as it was, and
    when the path request is rejected [isEnabled] is already set while
    [logFilePath] keeps its old value.  The commands sent are the
    requests made, followed after a rejection by what [console.error]
    forwards. *)
Theorem debug_load_outcomes b w :
  fst (load b intercepted jsonOf w) = Resolved tt /\
  isLoading (store (snd (load b intercepted jsonOf w)))
    = isLoading (store w) /\
  (forall e, on_is_enabled b = Rejected e ->
     snd (load b intercepted jsonOf w) =
       mkWorld (store w)
         (invoked w ++ is_debug_mode_enabled ::
            forwarded intercepted (isEnabled (store w))
              [DebugLogger.AString "Failed to load debug state:";
               thrownArg jsonOf e]))
  /\
  (on_is_enabled b = Resolved false ->
     snd (load b intercepted jsonOf w) =
       mkWorld (mkState false (logFilePath (store w)) (isLoading (store w)))
         (invoked w ++ [is_debug_mode_enabled])) /\
  (on_is_enabled b = Resolved true ->
     isEnabled (store (snd (load b intercepted jsonOf w))) = true /\
     (forall p, on_get_path b = Resolved p ->
        logFilePath (store (snd (load b intercepted jsonOf w))) = p /\
        invoked (snd (load b intercepted jsonOf w))
          = invoked w ++ [is_debug_mode_enabled; get_debug_log_path]) /\
     (forall e, on_get_path b = Rejected e ->
        logFilePath (store (snd (load b intercepted jsonOf w)))
          = logFilePath (store w) /\
        invoked (snd (load b intercepted jsonOf w))
          = invoked w ++ is_debug_mode_enabled :: get_debug_log_path ::
              forwarded intercepted true
                [DebugLogger.AString "Failed to load debug state:";
                 thrownArg jsonOf e])).
Proof.
  unfold load, invoke, consoleError. task_unfold.
  destruct (on_is_enabled b) as [[|]|e]; cbn;
    [destruct (on_get_path b) as [p|e]; cbn | |];
    outcome_cases; rewrite <- !app_assoc; reflexivity.
Qed.
End DebugStoreMore.

(** ** The console interceptor at work, and debugInvoke *)

Section InterceptedCalls.
Import DebugLogger.
Context {Fn : Type}.
Implicit Types (s : Runtime Fn) (m : Method).


End InterceptedCalls.

Section DebugInvokeMore.
Import DebugInvoke.
Context {Num T : Type} (elapsed : Num -> Num -> Num).
Implicit Types (clock : Clock Num) (w : World Num) (outcome : Outcome T).

(** X21. With debug mode off, [debugInvoke] logs nothing and does not
    serialize the arguments.  It returns the wrapped call's result, and
    rejects with the wrapped call's rejection value, unless computing
    the error text of that value throws: then it rejects with what was
    thrown. *)
Theorem debugInvoke_transparent_when_off clock w cmd a outcome :
  debugEnabled w = false ->
  debugInvoke elapsed clock cmd a outcome w =
    (match outcome with
     | Resolved r => Resolved r
     | Rejected e =>
         match errorMessage e with
         | Resolved _ => Rejected e
         | Rejected t => Rejected t
         end
     end, w).
Proof.
  intros H. unfold debugInvoke. task_unfold.
  destruct outcome as [r|e]; cbn; [rewrite H; reflexivity|].
  destruct (errorMessage e); cbn; [rewrite H|]; reflexivity.
Qed.

(** X22. With debug mode on and arguments that are absent or can be
    serialized, [debugInvoke] hands back the wrapped call's result and
    records one invoke log: the command, the elapsed time, success, the
    serialized arguments.  For a rejection whose error text ([e.message]
    or [String(e)]) can be computed it rejects with the same value and
    records one log with that text; when computing the text throws, it
    rejects with what was thrown and records nothing. *)
Theorem debugInvoke_logs_when_on clock w cmd (j : option string) outcome :
  debugEnabled w = true ->
  let a := option_map Resolved j in
  let w' := snd (debugInvoke elapsed clock cmd a outcome w) in
  let duration := elapsed (settled clock) (started clock) in
  debugEnabled w' = true /\
  (forall r, outcome = Resolved r ->
     fst (debugInvoke elapsed clock cmd a outcome w) = Resolved r /\
     sent w' = sent w ++ [mkLog cmd duration true j None]) /\
  (forall e message, outcome = Rejected e ->
     errorMessage e = Resolved message ->
     fst (debugInvoke elapsed clock cmd a outcome w) = Rejected e /\
     sent w' = sent w ++ [mkLog cmd duration false j (Some message)]) /\
  (forall e t, outcome = Rejected e -> errorMessage e = Rejected t ->
     fst (debugInvoke elapsed clock cmd a outcome w) = Rejected t /\
     sent w' = sent w).
Proof.
  intros H. unfold debugInvoke, stringifyArgs, sendLog. task_unfold.
  destruct outcome as [r|e]; [|destruct (errorMessage e) as [m|t] eqn:Hm];
    destruct j as [j|]; cbn; rewrite ?H; cbn; rewrite ?H;
    (split; [reflexivity|]);
    (split; [intros ? [=] | split; intros e' x [=] Hx]);
    subst; rewrite ?Hm in *; try discriminate;
    try (injection Hx as <-); split; reflexivity.
Qed.
End DebugInvokeMore.

(** ** The release-notification store: the remaining paths *)

Section WhatsNewMore.
Import WhatsNew.
Implicit Types (env : Env) (w : World) (v : string).

(** What [fetchReleaseNotes] can leave behind: the release it parsed
    and no error, or the fallback record and a message. *)
Lemma fetchReleaseNotes_shows env v w :
  let w' := snd (fetchReleaseNotes env v w) in
  localStorage w' = localStorage w /\
  isOpen (store w') = isOpen (store w) /\
  ((error (store w') = None /\
    exists d, release (store w') = Some (parseRelease d)) \/
   (exists msg, error (store w') = Some msg /\
    release (store w') = Some (fallbackRelease (nowISO env) v))).
Proof.
  unfold fetchReleaseNotes, doFetch. task_unfold. cbn.
  destruct (fetch env (taggedUrl v)) as [r1|e1]; cbn;
    [|repeat split; right; eexists; split; reflexivity].
  destruct (ok r1); cbn.
  - destruct (json r1) as [d|e]; cbn; repeat split;
      [left; split; [|exists d]; reflexivity
      |right; eexists; split; reflexivity].
  - destruct (fetch env (untaggedUrl v)) as [r2|e2]; cbn;
      [|repeat split; right; eexists; split; reflexivity].
    destruct (ok r2); cbn;
      [|repeat split; right; eexists; split; reflexivity].
    destruct (json r2) as [d|e]; cbn; repeat split;
      [left; split; [|exists d]; reflexivity
      |right; eexists; split; reflexivity].
Qed.

(** X23. Whatever the network does, [fetchReleaseNotes] leaves a release
    to show: the parsed one exactly when no error is recorded, the
    fallback record together with an error message otherwise.  It never
    touches the stored marker or [isOpen]. *)
Theorem fetchReleaseNotes_always_shows env v w :
  let w' := snd (fetchReleaseNotes env v w) in
  localStorage w' = localStorage w /\
  isOpen (store w') = isOpen (store w) /\
  ((error (store w') = None /\
    exists d, release (store w') = Some (parseRelease d)) \/
   (exists msg, error (store w') = Some msg /\
    release (store w') = Some (fallbackRelease (nowISO env) v))).
Proof. exact (fetchReleaseNotes_shows env v w). Qed.

(** X24. A tagged endpoint that answers ok with a document is the only
    request made: no retry follows, the parsed document is the release and
    no error is recorded.  When only the untagged endpoint answers ok, its
    document is the release, again without an error. *)
Theorem fetchReleaseNotes_success env v w :
  let w' := snd (fetchReleaseNotes env v w) in
  (forall r d, fetch env (taggedUrl v) = Resolved r -> ok r = true ->
     json r = Resolved d ->
     requests w' = requests w ++ [taggedUrl v] /\
     release (store w') = Some (parseRelease d) /\
     error (store w') = None) /\
  (forall r1 r2 d, fetch env (taggedUrl v) = Resolved r1 -> ok r1 = false ->
     fetch env (untaggedUrl v) = Resolved r2 -> ok r2 = true ->
     json r2 = Resolved d ->
     release (store w') = Some (parseRelease d) /\
     error (store w') = None).
Proof.
  unfold fetchReleaseNotes, doFetch. task_unfold. cbn. split.
  - intros r d Hr Hok Hd. rewrite Hr. cbn. rewrite Hok. cbn. rewrite Hd.
    cbn. repeat split.
  - intros r1 r2 d Hr1 Hok1 Hr2 Hok2 Hd. rewrite Hr1. cbn. rewrite Hok1.
    cbn. rewrite Hr2. cbn. rewrite Hok2. cbn. rewrite Hd. cbn.
    repeat split.
Qed.

Lemma fetchReleaseNotes_returns env v w :
  fetchReleaseNotes env v w = (Resolved tt, snd (fetchReleaseNotes env v w)).
Proof.
  destruct (fetchReleaseNotes_total env v w) as [H _].
  destruct (fetchReleaseNotes env v w) as [r w']. simpl in *. congruence.
Qed.

(** X25. When the stored marker is a version other than the current
    one, [checkForWhatsNew] opens the modal with a release to show and
    [isLoading] false, whatever the network does, and leaves the marker
    as it was: only [dismiss] advances it. *)
Theorem checkForWhatsNew_version_changed env w v (seen : string) :
  getVersion env = Resolved v ->
  localStorage w !! LAST_SEEN_VERSION_KEY = Some seen ->
  seen <> "" -> seen <> v ->
  let w' := snd (checkForWhatsNew env w) in
  fst (checkForWhatsNew env w) = Resolved tt /\
  isOpen (store w') = true /\
  isLoading (store w') = false /\
  is_Some (release (store w')) /\
  localStorage w' = localStorage w.
Proof.
  intros Hv Hm Hne Hnv. unfold checkForWhatsNew, getItem. task_unfold.
  rewrite Hv. cbn. rewrite Hm. cbn.
  destruct (String.eqb_spec seen "") as [|_]; [contradiction|].
  rewrite bool_decide_eq_false_2 by congruence.
  rewrite (fetchReleaseNotes_returns env v w). cbn.
  destruct (fetchReleaseNotes_total env v w) as [_ Hload].
  destruct (fetchReleaseNotes_shows env v w) as (Hls & _ & Hrel).
  repeat split; try assumption.
  destruct Hrel as [[_ [d ->]]|[msg [_ ->]]]; eexists; reflexivity.
Qed.

Lemma checkForWhatsNew_same_marker env w v :
  getVersion env = Resolved v ->
  localStorage w !! LAST_SEEN_VERSION_KEY = Some v ->
  checkForWhatsNew env w = (Resolved tt, w).
Proof.
  intros Hv Hm. unfold checkForWhatsNew, getItem, setItem. task_unfold.
  rewrite Hv. cbn. rewrite Hm. cbn.
  destruct (String.eqb v "") eqn:E.
  - rewrite insert_id by exact Hm. destruct w; reflexivity.
  - rewrite bool_decide_eq_true_2 by reflexivity. reflexivity.
Qed.

(** X26. Shown once: after [dismiss] of a held release, a
    [checkForWhatsNew] under that release's version changes nothing. *)
Theorem dismiss_then_check_is_noop env w (r : ReleaseInfo) :
  release (store w) = Some r ->
  getVersion env = Resolved (version r) ->
  checkForWhatsNew env (snd (dismiss w)) = (Resolved tt, snd (dismiss w)).
Proof.
  intros Hr Hv. apply (checkForWhatsNew_same_marker env _ (version r) Hv).
  unfold dismiss, setItem. task_unfold. cbn. rewrite Hr. cbn.
  apply lookup_insert_eq.
Qed.

(** X27. [showCurrentReleaseNotes] never rejects and never writes the
    marker.  With a current version at hand it ends open, not loading,
    with a release to show; when [getVersion] is rejected it changes
    nothing. *)
Theorem showCurrentReleaseNotes_opens env w :
  fst (showCurrentReleaseNotes env w) = Resolved tt /\
  localStorage (snd (showCurrentReleaseNotes env w)) = localStorage w /\
  (forall v, getVersion env = Resolved v ->
     isOpen (store (snd (showCurrentReleaseNotes env w))) = true /\
     isLoading (store (snd (showCurrentReleaseNotes env w))) = false /\
     is_Some (release (store (snd (showCurrentReleaseNotes env w))))) /\
  (forall e, getVersion env = Rejected e ->
     snd (showCurrentReleaseNotes env w) = w).
Proof.
  unfold showCurrentReleaseNotes. task_unfold.
  destruct (getVersion env) as [v|e]; cbn.
  - rewrite (fetchReleaseNotes_returns env v w). cbn.
    destruct (fetchReleaseNotes_total env v w) as [_ Hload].
    destruct (fetchReleaseNotes_shows env v w) as (Hls & _ & Hrel).
    split; [reflexivity|]. split; [exact Hls|]. split; [|intros ? [=]].
    intros v' [= <-]. repeat split; try assumption.
    destruct Hrel as [[_ [d ->]]|[msg [_ ->]]]; eexists; reflexivity.
  - split; [reflexivity|]. split; [reflexivity|].
    split; [intros ? [=] | reflexivity].
Qed.
End WhatsNewMore.

(** ** More on the engine, parseRelease and renderMarkdown *)

Section EngineMore.
Import JsRegExp.

Lemma exec_needs_chr multiline c r :
  needs_chr c r = true ->
  forall st k, (forall tl, rest st <> c :: tl) ->
    exec multiline r st k = None.
Proof.
  induction r as [| c' | | | | r1 IH1 r2 IH2 | | | i r1 IH1]; simpl;
    try discriminate; intros Hr st k Hst.
  - apply Ascii.eqb_eq in Hr. subst c'. unfold step_char.
    destruct (rest st) as [|d tl] eqn:E; [reflexivity|].
    destruct (Ascii.eqb_spec c d) as [->|_]; [|reflexivity].
    destruct (Hst tl). reflexivity.
  - destruct r1; try (apply IH1; assumption); try discriminate.
    simpl. destruct (at_bol multiline st); [|reflexivity].
    apply IH2; assumption.
  - apply IH1; assumption.
Qed.

(** A replacement whose pattern needs a character the text lacks changes
    nothing. *)
Lemma replace_with_absent multiline global r f (c : ascii) (s : string) :
  needs_chr c r = true ->
  Forall (fun d => d <> c) (list_ascii_of_string s) ->
  replace_with multiline global r f s = s.
Proof.
  intros Hr Hs. unfold replace_with, replace_list.
  rewrite (replace_from_no_match (Forall (fun d => d <> c))).
  - apply string_of_list_ascii_of_string.
  - intros prev l Hl. apply (exec_needs_chr _ c); [exact Hr|].
    simpl. intros tl ->. inversion Hl; congruence.
  - intros d l Hl. inversion Hl; assumption.
  - exact Hs.
Qed.

Lemma replace_from_step fuel multiline global r f prev s :
  replace_from (S fuel) multiline global r f prev s =
    match match_at multiline r prev s with
    | Some st' =>
        let matched := firstn (length s - length (rest st')) s in
        f matched (caps st') ++
        (if global then
           match matched, s with
           | [], c :: tl =>
               c :: replace_from fuel multiline global r f (Some c) tl
           | [], [] => []
           | _ :: _, _ =>
               replace_from fuel multiline global r f
                 (before st') (rest st')
           end
         else rest st')
    | None =>
        match s with
        | [] => []
        | c :: tl => c :: replace_from fuel multiline global r f (Some c) tl
        end
    end.
Proof. reflexivity. Qed.

(** Past the first position a pattern anchored with [^] (no [m] flag)
    finds nothing. *)
Lemma replace_from_anchored global r f :
  forall fuel (c : ascii) s,
    replace_from fuel false global (Seq Bol r) f (Some c) s = s.
Proof.
  induction fuel as [|fuel IH]; intros c s; simpl; [reflexivity|].
  destruct s as [|d s]; [reflexivity|]. rewrite IH. reflexivity.
Qed.

(** Replacing every [c] by a text without [c] leaves no [c]. *)
Lemma replace_chr_everywhere multiline (c : ascii) (f : replacer) :
  (forall matched cs, Forall (fun d => d <> c) (f matched cs)) ->
  forall fuel prev s, (length s < fuel)%nat ->
    Forall (fun d => d <> c)
      (replace_from fuel multiline true (Chr c) f prev s).
Proof.
  intros Hf. induction fuel as [|fuel IH]; intros prev s Hlen; [lia|].
  simpl. unfold match_at. simpl. unfold step_char. simpl.
  destruct s as [|d s]; [constructor|]. simpl in Hlen.
  destruct (Ascii.eqb_spec c d) as [->|Hne]; simpl.
  - replace (length s - length s)%nat with 0%nat by lia.
    assert (H1 : (S (length s) - length s = 1)%nat) by lia.
    change (match (length s - length s)%nat with
            | 0%nat => S (length s)
            | S l => (length s - l)%nat
            end) with (S (length s) - length s)%nat.
    rewrite H1. simpl. apply Forall_app. split; [apply Hf|].
    apply IH. lia.
  - constructor; [congruence|]. apply IH. lia.
Qed.
End EngineMore.

Section ParseReleaseMore.
Import JsRegExp WhatsNew.

Lemma stripV_prefixed (t : string) : stripV (String "v" t) = t.
Proof.
  unfold stripV, replace, replace_with, replace_list. simpl.
  unfold match_at. simpl.
  replace (length (list_ascii_of_string t)
           - length (list_ascii_of_string t))%nat with 0%nat by lia.
  simpl. apply string_of_list_ascii_of_string.
Qed.

Lemma stripV_other (tag : string) :
  (forall t, tag <> String "v" t) -> stripV tag = tag.
Proof.
  intros H. unfold stripV, replace, replace_with, replace_list.
  destruct tag as [|c t]; [reflexivity|].
  change (list_ascii_of_string (String c t))
    with (c :: list_ascii_of_string t).
  rewrite replace_from_step.
  assert (Hno : match_at false (Seq Bol (Chr "v")) None
                  (c :: list_ascii_of_string t) = None).
  { change (match_at false (Seq Bol (Chr "v")) None
              (c :: list_ascii_of_string t))
      with (if Ascii.eqb "v" c
            then Some (MState (Some c) (list_ascii_of_string t) [])
            else None).
    destruct (Ascii.eqb_spec "v" c) as [<-|_]; [|reflexivity].
    destruct (H t). reflexivity. }
  rewrite Hno, replace_from_anchored.
  change (c :: list_ascii_of_string t)
    with (list_ascii_of_string (String c t)).
  apply string_of_list_ascii_of_string.
Qed.

Lemma or_else_nonempty (a b : string) : b <> "" -> or_else a b <> "".
Proof.
  intros Hb. unfold or_else. destruct (String.eqb_spec a ""); assumption.
Qed.

(** X28. [parseRelease] drops exactly one leading [v] of the tag and
    leaves any other tag alone; the name and the body it gives are never
    empty, and a non-empty name or body of the document is kept. *)
Theorem parseRelease_normalizes (d : ReleaseData) :
  (forall t, tag_name d = String "v" t -> version (parseRelease d) = t) /\
  ((forall t, tag_name d <> String "v" t) ->
     version (parseRelease d) = tag_name d) /\
  name (parseRelease d) <> "" /\
  body (parseRelease d) <> "" /\
  (data_name d <> "" -> name (parseRelease d) = data_name d) /\
  (data_body d <> "" -> body (parseRelease d) = data_body d).
Proof.
  unfold parseRelease. cbn [version name body].
  fold (stripV (tag_name d)).
  split; [intros t ->; apply stripV_prefixed|].
  split; [apply stripV_other|].
  split; [apply or_else_nonempty; discriminate|].
  split; [apply or_else_nonempty; discriminate|].
  unfold or_else.
  split; intros H; match goal with
    | |- context [String.eqb ?a ""] => destruct (String.eqb_spec a "")
    end; congruence.
Qed.
End ParseReleaseMore.

Section MarkdownMore.
Import JsRegExp Markdown.

(** X29. The output of [renderMarkdown] holds no line feed: the last
    rule turns every one that is left into a break tag. *)
Theorem renderMarkdown_has_no_line_feed (text : string) :
  Forall (fun c => c <> LF) (list_ascii_of_string (renderMarkdown text)).
Proof.
  unfold renderMarkdown, afterEmphasis, lineBreaks, replace, replace_with,
    replace_list.
  rewrite list_ascii_of_string_of_list_ascii.
  apply replace_chr_everywhere; [|lia].
  intros matched cs. unfold subst. simpl.
  repeat constructor; discriminate.
Qed.

Lemma plainText_free (text : string) (c : ascii) :
  plainText text = true -> In c markupChars ->
  Forall (fun d => d <> c) (list_ascii_of_string text).
Proof.
  unfold plainText. intros H Hc.
  induction (list_ascii_of_string text) as [|d l IH]; [constructor|].
  cbn [forallb] in H. apply andb_true_iff in H. destruct H as [Hd Hl].
  constructor; [|exact (IH Hl)].
  intros ->. apply negb_true_iff in Hd.
  assert (Hex : existsb (Ascii.eqb c) markupChars = true).
  { apply existsb_exists. exists c. split; [exact Hc | apply Ascii.eqb_refl]. }
  congruence.
Qed.

(** X30. A text in which none of the characters [# * ` [ - <] and no line
    feed occurs is rendered as it is: no rule applies to it. *)
Theorem renderMarkdown_plain_text (text : string) :
  plainText text = true -> renderMarkdown text = text.
Proof.
  intros H.
  assert (Hfree : forall c, In c markupChars ->
    Forall (fun d => d <> c) (list_ascii_of_string text))
    by (intros c; apply plainText_free; exact H).
  assert (Hrule : forall multiline global r f c,
    needs_chr c r = true -> In c markupChars ->
    replace_with multiline global r f text = text).
  { intros multiline global r f c Hr Hc.
    apply (replace_with_absent _ _ _ _ c); [exact Hr | exact (Hfree c Hc)]. }
  unfold renderMarkdown, afterEmphasis, headers.
  assert (header4 text = text) as ->
    by (apply (Hrule _ _ _ _ "#"%char); [reflexivity | simpl; tauto]).
  assert (header3 text = text) as ->
    by (apply (Hrule _ _ _ _ "#"%char); [reflexivity | simpl; tauto]).
  assert (header2 text = text) as ->
    by (apply (Hrule _ _ _ _ "#"%char); [reflexivity | simpl; tauto]).
  assert (bold text = text) as ->
    by (apply (Hrule _ _ _ _ "*"%char); [reflexivity | simpl; tauto]).
  assert (italic text = text) as ->
    by (apply (Hrule _ _ _ _ "*"%char); [reflexivity | simpl; tauto]).
  assert (codeBlocks text = text) as ->
    by (apply (Hrule _ _ _ _ "`"%char); [reflexivity | simpl; tauto]).
  assert (inlineCode text = text) as ->
    by (apply (Hrule _ _ _ _ "`"%char); [reflexivity | simpl; tauto]).
  assert (links text = text) as ->
    by (apply (Hrule _ _ _ _ "["%char); [reflexivity | simpl; tauto]).
  assert (bullets text = text) as ->
    by (apply (Hrule _ _ _ _ "-"%char); [reflexivity | simpl; tauto]).
  assert (wrapLists text = text) as ->
    by (apply (Hrule _ _ _ _ "<"%char); [reflexivity | simpl; tauto]).
  assert (paragraphs text = text) as ->
    by (apply (Hrule _ _ _ _ LF); [reflexivity | simpl; tauto]).
  apply (Hrule _ _ _ _ LF); [reflexivity | simpl; tauto].
Qed.
End MarkdownMore.

(** ** The further properties at sample inputs *)

Section MoreSampleFacts.
Import McpLibrary McpLibraryViews.

Lemma delete_then_lookup_witness :
  delete_mcp acceptingBackend 2 = Resolved tt /\
  getMcpById 2 (snd (McpLibrary.delete acceptingBackend 2 sampleStore))
    = None.
Proof.
  split; [reflexivity|].
  exact (proj1 (delete_then_lookup acceptingBackend sampleStore 2 eq_refl)).
Defined.

Lemma update_then_lookup_witness :
  update_mcp acceptingBackend 2 tt = Resolved alpha /\ id alpha = 2%Z /\
  map id (mcps (snd (update acceptingBackend 2 tt sampleStore)))
    = map id (mcps sampleStore).
Proof.
  split; [reflexivity|]. split; [reflexivity|].
  exact (proj1 (update_then_lookup acceptingBackend sampleStore 2 tt alpha
                  eq_refl eq_refl)).
Defined.

Lemma toggleGlobal_keeps_view_witness :
  toggle_global_mcp acceptingBackend 1 true = Resolved tt /\
  filteredMcps lowerAscii byLength
    (snd (toggleGlobal acceptingBackend 1 true sampleStore))
  = map (fun m => if (id m =? 1)%Z then withEnabledGlobal true m else m)
      (filteredMcps lowerAscii byLength sampleStore).
Proof.
  split; [reflexivity|].
  exact (proj1 (toggleGlobal_keeps_view lowerAscii byLength acceptingBackend
                  sampleStore 1 true eq_refl)).
Defined.

Lemma byLength_total (x y : string) :
  (byLength x y <= 0 \/ byLength y x <= 0)%Z.
Proof. unfold byLength. lia. Qed.

Lemma byLength_trans (x y z : string) :
  (byLength x y <= 0 -> byLength y z <= 0 -> byLength x z <= 0)%Z.
Proof. unfold byLength. lia. Qed.

Lemma setTypeFilter_thins_view_witness :
  filteredMcps lowerAscii byLength
    (setTypeFilter (only McpLibrary.sse) sampleStore) =
    List.filter (hasType McpLibrary.sse)
      (filteredMcps lowerAscii byLength (setTypeFilter all sampleStore)).
Proof.
  exact (setTypeFilter_thins_view lowerAscii byLength byLength_total
           byLength_trans sampleStore McpLibrary.sse).
Defined.

Lemma filteredMcps_keeps_ties_witness :
  List.filter (tiesWith (compareMcps byLength) gamma)
    (filteredMcps lowerAscii byLength sampleStore)
  = List.filter (tiesWith (compareMcps byLength) gamma)
      (List.filter
         (selectedBy lowerAscii (searchQuery sampleStore)
            (selectedType sampleStore))
         (mcps sampleStore)).
Proof.
  exact (filteredMcps_keeps_ties lowerAscii byLength byLength_total
           byLength_trans sampleStore gamma).
Defined.

Example mcpCount_sample :
  mcpCount sampleStore = mkCount 3 1 1 1.
Proof. reflexivity. Qed.

Example mcpCount_unnamed_type :
  mcpCount
    (mkState [beta; mkMcp 4 "socket" None "websocket" None false false tt]
       false None "" all)
  = mkCount 2 1 0 0.
Proof. reflexivity. Qed.

(** A rejection value that [String] cannot convert makes [load] itself
    reject, with [isLoading] cleared and no error recorded. *)
Example load_rejects_when_String_throws :
  load
    (mkBackend (Rejected notConvertible) (fun _ : unit => Resolved beta)
       (fun _ _ => Resolved alpha) (fun _ => Resolved tt)
       (fun _ => Resolved gamma) (fun _ _ => Resolved tt))
    sampleStore
  = (Rejected
       (ErrorObj "TypeError" "Cannot convert object to primitive value"),
     sampleStore).
Proof. reflexivity. Qed.
End MoreSampleFacts.

Section DebugSampleFacts.
Import DebugStore.

Lemma disable_keeps_log_path_witness :
  on_enable acceptingDebug = Resolved "/tmp/debug.log" /\
  on_disable acceptingDebug = Resolved tt /\
  logFilePath
    (store (snd (disable acceptingDebug true sampleJson
                   (snd (enable acceptingDebug true sampleJson debugOff)))))
  = Some "/tmp/debug.log".
Proof.
  split; [reflexivity|]. split; [reflexivity|].
  exact (proj1 (proj2 (proj2 (proj2 (proj2
    (disable_keeps_log_path true sampleJson acceptingDebug debugOff
       "/tmp/debug.log" eq_refl eq_refl)))))).
Defined.

Lemma toggle_flips_witness :
  on_enable acceptingDebug = Resolved "/tmp/debug.log" /\
  on_disable acceptingDebug = Resolved tt /\
  isEnabled (store (snd (toggle acceptingDebug true sampleJson debugOff)))
    = true.
Proof.
  split; [reflexivity|]. split; [reflexivity|].
  exact (proj1 (proj2
    (toggle_flips true sampleJson acceptingDebug debugOff "/tmp/debug.log"
       eq_refl eq_refl))).
Defined.

Lemma logging_disabled_is_noop_witness :
  isEnabled (store debugOff) = false /\
  log acceptingDebug "started" None debugOff = (Resolved tt, debugOff).
Proof.
  split; [reflexivity|].
  exact (proj1 (proj1 (logging_disabled_is_noop acceptingDebug debugOff
                         eq_refl) "started" None)).
Defined.

Lemma logging_enabled_swallows_failures_witness :
  isEnabled (store debugOn) = true /\
  on_write_log acceptingDebug "WARN" "slow" None
    = Rejected (StringVal "disk full") /\
  warn acceptingDebug "slow" (Some "") debugOn =
    (Resolved tt,
     mkWorld (store debugOn) [write_frontend_log "WARN" "slow" None]).
Proof.
  split; [reflexivity|]. split; [reflexivity|].
  exact (proj1 (proj2 (logging_enabled_swallows_failures acceptingDebug
                         debugOn "slow" (Some "") eq_refl))).
Defined.

Lemma logInvoke_never_rejects_witness :
  isEnabled (store debugOn) = true /\
  fst (logInvoke acceptingDebug "get_all_mcps" 42%Z true
         (Some (Rejected (ErrorObj "TypeError" "cyclic object value")))
         None debugOn) = Resolved tt.
Proof.
  split; [reflexivity|].
  exact (proj1 (logInvoke_never_rejects acceptingDebug debugOn
                  "get_all_mcps" 42%Z true
                  (Some (Rejected (ErrorObj "TypeError" "cyclic object value")))
                  None eq_refl)).
Defined.

Example disable_failure_is_forwarded :
  disable refusingDebug true sampleJson debugOn =
    (Rejected (StringVal "denied"),
     mkWorld (store debugOn)
       [disable_debug_mode;
        write_frontend_log "ERROR" "Failed to disable debug mode: denied"
          None]).
Proof. reflexivity. Qed.

Example disable_failure_without_interceptor :
  disable refusingDebug false sampleJson debugOn =
    (Rejected (StringVal "denied"),
     mkWorld (store debugOn) [disable_debug_mode]).
Proof. reflexivity. Qed.
End DebugSampleFacts.

Section LoggerSampleFacts.
Import DebugLogger.


Lemma debugInvoke_transparent_when_off_witness :
  DebugInvoke.debugEnabled invokeOff = false /\
  DebugInvoke.debugInvoke Z.sub sampleClock "delete_mcp" None
    (Rejected (StringVal "not found") : Outcome unit) invokeOff
  = (Rejected (StringVal "not found"), invokeOff).
Proof.
  split; [reflexivity|].
  exact (debugInvoke_transparent_when_off Z.sub sampleClock invokeOff
           "delete_mcp" None (Rejected (StringVal "not found")) eq_refl).
Defined.

Lemma debugInvoke_logs_when_on_witness :
  DebugInvoke.debugEnabled invokeOn = true /\
  DebugInvoke.sent
    (snd (DebugInvoke.debugInvoke Z.sub sampleClock "delete_mcp"
            (Some (Resolved "{}"))
            (Rejected (StringVal "not found") : Outcome unit) invokeOn))
  = [DebugInvoke.mkLog "delete_mcp" 42%Z false (Some "{}")
       (Some "not found")].
Proof.
  split; [reflexivity|].
  exact (proj2 (proj1 (proj2 (proj2
    (debugInvoke_logs_when_on Z.sub sampleClock invokeOn "delete_mcp"
       (Some "{}") (Rejected (StringVal "not found")) eq_refl)))
    (StringVal "not found") "not found" eq_refl eq_refl)).
Defined.

Example debugInvoke_off_unprintable :
  DebugInvoke.debugInvoke Z.sub sampleClock "delete_mcp" None
    (Rejected notConvertible : Outcome unit) invokeOff
  = (Rejected
       (ErrorObj "TypeError" "Cannot convert object to primitive value"),
     invokeOff).
Proof. reflexivity. Qed.

Example debugInvoke_on_unprintable :
  DebugInvoke.debugInvoke Z.sub sampleClock "delete_mcp" None
    (Rejected notConvertible : Outcome unit) invokeOn
  = (Rejected
       (ErrorObj "TypeError" "Cannot convert object to primitive value"),
     invokeOn).
Proof. reflexivity. Qed.
End LoggerSampleFacts.

Section WhatsNewMoreSampleFacts.
Import WhatsNew Markdown.

Lemma checkForWhatsNew_version_changed_witness :
  getVersion offlineEnv = Resolved "1.2.0" /\
  localStorage staleWorld !! LAST_SEEN_VERSION_KEY = Some "1.1.0" /\
  isOpen (store (snd (checkForWhatsNew offlineEnv staleWorld))) = true.
Proof.
  split; [reflexivity|]. split; [reflexivity|].
  assert (H1 : "1.1.0" <> "") by discriminate.
  assert (H2 : "1.1.0" <> "1.2.0") by discriminate.
  exact (proj1 (proj2 (checkForWhatsNew_version_changed offlineEnv staleWorld
                         "1.2.0" "1.1.0" eq_refl eq_refl H1 H2))).
Defined.

Lemma dismiss_then_check_is_noop_witness :
  getVersion offlineEnv = Resolved "1.2.0" /\
  checkForWhatsNew offlineEnv (snd (dismiss shownWorld))
    = (Resolved tt, snd (dismiss shownWorld)).
Proof.
  split; [reflexivity|].
  exact (dismiss_then_check_is_noop offlineEnv shownWorld
           (mkRelease "1.2.0" "Version 1.2.0" "notes" "t" "u")
           eq_refl eq_refl).
Defined.

Lemma renderMarkdown_plain_text_witness :
  plainText "Fixed a crash on startup." = true /\
  renderMarkdown "Fixed a crash on startup." = "Fixed a crash on startup.".
Proof.
  split; [reflexivity|].
  exact (renderMarkdown_plain_text "Fixed a crash on startup." eq_refl).
Defined.
End WhatsNewMoreSampleFacts.
